(** * The BoltDB lock store and pull-status store

    A shallow embedding of [server/events/db/boltdb.go]: the lock store
    ([TryLock], [Unlock], [List], [UnlockByPull], [GetLock]), the pull-status
    store ([UpdatePullWithResults], [GetPullStatus], [DeletePullStatus],
    [DeleteProjectStatus]) and the key codec ([lockKey], [pullKey]), followed
    by the properties of these operations.

    Go strings and byte slices are [string]; Go [int] is [Z] (the code only
    compares and prints integers, it never computes with them); a bucket of
    the storage engine is a finite map from keys to values. *)

From Stdlib Require Import ZArith.
From stdpp Require Import base option strings gmap list sorting pretty.
From Ceres Require Ceres.

Local Open Scope string_scope.

(** A byte slice, as stored in a bucket. *)
Abbreviation bytes := string (only parsing).

(** ** The standard library's [time.Time]

    A wall-clock instant together with the location it is displayed in.
    [Local] is Go's [Time.Local]: the same instant, location set to the
    system's local zone. *)
Module Time.
Inductive Location :=
| UTC
| LocalZone
| FixedZone (offsetSeconds : Z).

Record t := mk { unixNano : Z; loc : Location }.


Definition Local (x : t) : t := mk (unixNano x) LocalZone.
End Time.

(** ** The records of package [models] *)

(** Modelled from the spec: [models.Project], declared outside boltdb.go; a
    repository full name and a path inside the repository. *)
Module Project.
Record t := mk { RepoFullName : string; Path : string }.
End Project.

(** Modelled from the spec: [models.Repo] with its [VCSHost], declared outside
    boltdb.go; [pullKey] reads [FullName] and [VCSHost.Hostname]. *)
Module VCSHost.
Record t := mk { Hostname : string }.
End VCSHost.

Module Repo.
Record t := mk { FullName : string; VCSHost : VCSHost.t }.
End Repo.

(** Modelled from the spec: [models.PullRequest], declared outside boltdb.go;
    host and base repository (in [BaseRepo]), number, head commit, and the
    descriptive fields [Branch] and [Author] that the store carries along
    without reading them. *)
Module PullRequest.
Record t := mk {
  Num : Z;
  HeadCommit : string;
  Branch : string;
  Author : string;
  BaseRepo : Repo.t
}.
End PullRequest.

(** Modelled from the spec: [models.ProjectLock], declared outside boltdb.go;
    the project, the workspace, the pull request holding the lock and the time
    of acquisition. *)
Module ProjectLock.
Record t := mk {
  Project : Project.t;
  Pull : PullRequest.t;
  Workspace : string;
  Time : Time.t
}.

(** [lock.Time = v] *)
Definition setTime (lock : t) (v : Time.t) : t :=
  mk (Project lock) (Pull lock) (Workspace lock) v.
End ProjectLock.

(** Modelled from the spec: [models.ProjectPlanStatus], an integer
    enumeration whose constants are declared outside boltdb.go. *)
Abbreviation ProjectPlanStatus := Z (only parsing).

(** Modelled from the spec: [models.ProjectStatus], declared outside boltdb.go. *)
Module ProjectStatus.
Record t := mk {
  Workspace : string;
  RepoRelDir : string;
  ProjectName : string;
  Status : ProjectPlanStatus
}.

(** [proj.Status = v] *)
Definition setStatus (proj : t) (v : ProjectPlanStatus) : t :=
  mk (Workspace proj) (RepoRelDir proj) (ProjectName proj) v.
End ProjectStatus.

(** Modelled from the spec: [models.ProjectResult], declared outside
    boltdb.go. The store reads three fields and calls the method
    [PlanStatus()], whose derivation rule lives with the caller; the value it
    returns is kept as a field of the record. *)
Module ProjectResult.
Record t := mk {
  Workspace : string;
  RepoRelDir : string;
  ProjectName : string;
  PlanStatus : ProjectPlanStatus
}.
End ProjectResult.

(** Modelled from the spec: [models.PullStatus], declared outside boltdb.go;
    the pull request and the ordered project statuses. *)
Module PullStatus.
Record t := mk { Pull : PullRequest.t; Projects : list ProjectStatus.t }.

(** [status.Projects = v] *)
Definition setProjects (status : t) (v : list ProjectStatus.t) : t :=
  mk (Pull status) v.
End PullStatus.

(** ** Errors *)

Inductive error :=
| JSONError
    (* an error returned by encoding/json *)
| Errorf (format : string) (args : list string)
    (* fmt.Errorf(format, args...) *)
| Wrap (cause : error) (message : string).
    (* errors.Wrap(cause, message), cause not nil *)

(** ** [encoding/json]

    The serialisation is a parameter of the development: [Marshal] is
    [json.Marshal] (fallible), [Unmarshal] is [json.Unmarshal] into a fresh
    variable (fallible). *)
Class JSON (A : Type) := {
  Marshal : A → option bytes;
  Unmarshal : bytes → option A
}.

(** ** The storage engine

    The two buckets created by [New], and the log of the transactions opened
    so far. The engine is taken to be healthy: [Put], [Delete] and the commit
    succeed; a transaction whose body returns an error is rolled back. *)
Inductive BucketName := locksBucketName | pullsBucketName.

Inductive TxMode := ReadOnly | ReadWrite.

Record BoltDB := mkBoltDB {
  runLocks : gmap string bytes;
  pulls : gmap string bytes;
  txlog : list TxMode
}.

Definition Bucket (name : BucketName) (b : BoltDB) : gmap string bytes :=
  match name with
  | locksBucketName => runLocks b
  | pullsBucketName => pulls b
  end.

Definition commit (name : BucketName) (bucket : gmap string bytes)
    (mode : TxMode) (b : BoltDB) : BoltDB :=
  match name with
  | locksBucketName => mkBoltDB bucket (pulls b) (txlog b ++ [mode])
  | pullsBucketName => mkBoltDB (runLocks b) bucket (txlog b ++ [mode])
  end.

Definition rollback (mode : TxMode) (b : BoltDB) : BoltDB :=
  mkBoltDB (runLocks b) (pulls b) (txlog b ++ [mode]).

(** The body of a transaction: it works on one bucket and either fails or
    yields the bucket as it leaves it and a result. *)
Definition Tx (A : Type) : Type := gmap string bytes → error + (gmap string bytes * A).

#[global] Instance Tx_ret : MRet Tx := λ A x bucket, inr (bucket, x).

#[global] Instance Tx_bind : MBind Tx := λ A B k m bucket,
  match m bucket with
  | inl e => inl e
  | inr (bucket', x) => k x bucket'
  end.

(** Leaving the body with [return err]. *)
Definition fail {A} (e : error) : Tx A := λ _, inl e.

(** [bucket.Get(key)]: nil when the key is absent. *)
Definition Get (key : string) : Tx (option bytes) :=
  λ bucket, inr (bucket, bucket !! key).

(** [bucket.Put(key, value)] *)
Definition Put (key : string) (value : bytes) : Tx () :=
  λ bucket, inr (<[key := value]> bucket, ()).

(** [bucket.Delete(key)]: no error when the key is absent. *)
Definition Delete (key : string) : Tx () :=
  λ bucket, inr (delete key bucket, ()).

(** [b.db.Update(fn)]: commit when [fn] returns nil, roll back otherwise. *)
Definition Update {A} (name : BucketName) (fn : Tx A) (b : BoltDB)
    : BoltDB * (error + A) :=
  match fn (Bucket name b) with
  | inl e => (rollback ReadWrite b, inl e)
  | inr (bucket', x) => (commit name bucket' ReadWrite b, inr x)
  end.

(** [b.db.View(fn)]: a read-only transaction, nothing is written back. *)
Definition View {A} (name : BucketName) (fn : Tx A) (b : BoltDB)
    : BoltDB * (error + A) :=
  match fn (Bucket name b) with
  | inl e => (rollback ReadOnly b, inl e)
  | inr (_, x) => (rollback ReadOnly b, inr x)
  end.

(** [bucket.Cursor()]: the entries of a bucket in the order of their keys,
    compared byte by byte. *)
Definition Cursor (bucket : gmap string bytes) : list (string * bytes) :=
  merge_sort (λ x y, Is_true (String.leb x.1 y.1)) (map_to_list bucket).

(** [c.Seek(seek)]: move to the first entry whose key is not below [seek]. *)
Fixpoint Seek (seek : string) (c : list (string * bytes)) : list (string * bytes) :=
  match c with
  | [] => []
  | kv :: rest => if String.ltb kv.1 seek then Seek seek rest else c
  end.

(** ** The key codec *)

Definition pullKeySeparator : string := "::".

(** [strings.Contains(s, substr)] *)
Fixpoint strings_Contains (s substr : string) : bool :=
  String.prefix substr s ||
  match s with
  | EmptyString => false
  | String _ rest => strings_Contains rest substr
  end.

(** [bytes.HasPrefix(s, prefix)] *)
Definition bytes_HasPrefix (s prefix : string) : bool := String.prefix prefix s.

Definition pullKey (pull : PullRequest.t) : error + string :=
  let hostname := VCSHost.Hostname (Repo.VCSHost (PullRequest.BaseRepo pull)) in
  if strings_Contains hostname pullKeySeparator then
    inl (Errorf "vcs hostname %q contains illegal string %q" [hostname; pullKeySeparator])
  else
    let repo := Repo.FullName (PullRequest.BaseRepo pull) in
    if strings_Contains repo pullKeySeparator then
      inl (Errorf "repo name %q contains illegal string %q" [hostname; pullKeySeparator])
    else
      inr (hostname ++ "::" ++ repo ++ "::" ++ pretty (PullRequest.Num pull)).

Definition lockKey (p : Project.t) (workspace : string) : string :=
  Project.RepoFullName p ++ "/" ++ Project.Path p ++ "/" ++ workspace.

(** ** The lock store

    An operation takes the store and returns the store as it leaves it next to
    its Go results. A result [(value, error)] of which Go callers read one side
    only is a sum; [List] and [UnlockByPull], which hand back the locks they
    have found together with the error, return both. *)

Section LockStore.
Context `{!JSON ProjectLock.t}.

Definition TryLock (newLock : ProjectLock.t) (b : BoltDB)
    : BoltDB * (error + bool * ProjectLock.t) :=
  let key := lockKey (ProjectLock.Project newLock) (ProjectLock.Workspace newLock) in
  (* the error of json.Marshal is dropped; the slice is nil when it fails *)
  let newLockSerialized := default "" (Marshal newLock) in
  let '(b', transactionErr) :=
    Update locksBucketName (
      currLockSerialized ← Get key;
      match currLockSerialized with
      | None =>
          Put key newLockSerialized;;
          mret (true, newLock)
      | Some currLockSerialized =>
          match Unmarshal currLockSerialized with
          | None => fail (Wrap JSONError "failed to deserialize current lock")
          | Some currLock => mret (false, currLock)
          end
      end) b in
  match transactionErr with
  | inl e => (b', inl (Wrap e "DB transaction failed"))
  | inr (lockAcquired, currLock) => (b', inr (lockAcquired, currLock))
  end.

Definition Unlock (p : Project.t) (workspace : string) (b : BoltDB)
    : BoltDB * (error + option ProjectLock.t) :=
  let key := lockKey p workspace in
  let '(b', err) :=
    Update locksBucketName (
      serialized ← Get key;
      match serialized with
      | Some serialized =>
          match Unmarshal serialized with
          | None => fail (Wrap JSONError "failed to deserialize lock")
          | Some lock => Delete key;; mret (Some lock)
          end
      | None => Delete key;; mret None
      end) b in
  match err with
  | inl e => (b', inl (Wrap e "DB transaction failed"))
  | inr foundLock => (b', inr foundLock)
  end.

(** The second loop of [List]: decode the collected values in order, stop
    at the first that does not decode and keep the locks decoded so far. *)
Fixpoint deserialize (locksBytes : list bytes) (locks : list ProjectLock.t)
    : list ProjectLock.t * option error :=
  match locksBytes with
  | [] => (locks, None)
  | v :: rest =>
      match Unmarshal v with
      | None => (locks, Some (Wrap JSONError "failed to deserialize lock at key %q"))
      | Some lock => deserialize rest (locks ++ [lock])
      end
  end.

Definition List (b : BoltDB) : BoltDB * (list ProjectLock.t * option error) :=
  let '(b', err) :=
    View locksBucketName (λ bucket, inr (bucket, (Cursor bucket).*2)) b in
  match err with
  | inl e => (b', ([], Some (Wrap e "DB transaction failed")))
  | inr locksBytes => (b', deserialize locksBytes [])
  end.

(** The scan of [UnlockByPull]: from the cursor position, while the key has
    the prefix, decode and keep the locks held by [pullNum]. The locks found
    before a decoding error stay in the result. *)
Fixpoint scan (repoFullName : string) (pullNum : Z)
    (c : list (string * bytes)) (locks : list ProjectLock.t)
    : list ProjectLock.t * option error :=
  match c with
  | [] => (locks, None)
  | (k, v) :: rest =>
      if bytes_HasPrefix k repoFullName then
        match Unmarshal v with
        | None => (locks, Some (Wrap JSONError "deserializing lock at key %q"))
        | Some lock =>
            if bool_decide (PullRequest.Num (ProjectLock.Pull lock) = pullNum)
            then scan repoFullName pullNum rest (locks ++ [lock])
            else scan repoFullName pullNum rest locks
        end
      else (locks, None)
  end.

(** The deleting loop of [UnlockByPull]: [Unlock] each lock in turn, stop at
    the first error. *)
Fixpoint unlockAll (locks : list ProjectLock.t) (b : BoltDB)
    : BoltDB * option error :=
  match locks with
  | [] => (b, None)
  | lock :: rest =>
      match Unlock (ProjectLock.Project lock) (ProjectLock.Workspace lock) b with
      | (b', inl e) => (b', Some (Wrap e "unlocking repo %s, path %s, workspace %s"))
      | (b', inr _) => unlockAll rest b'
      end
  end.

Definition UnlockByPull (repoFullName : string) (pullNum : Z) (b : BoltDB)
    : BoltDB * (list ProjectLock.t * option error) :=
  (* the body of the read transaction leaves its error next to the locks it
     has collected in the captured variable *)
  let '(b1, found) :=
    View locksBucketName (λ bucket,
      inr (bucket, scan repoFullName pullNum (Seek repoFullName (Cursor bucket)) [])) b in
  match found with
  | inl e => (b1, ([], Some e))
  | inr (locks, Some err) => (b1, (locks, Some err))
  | inr (locks, None) =>
      let '(b2, err) := unlockAll locks b1 in
      (b2, (locks, err))
  end.

Definition GetLock (p : Project.t) (workspace : string) (b : BoltDB)
    : BoltDB * (error + option ProjectLock.t) :=
  let key := lockKey p workspace in
  let '(b', err) := View locksBucketName (Get key) b in
  match err with
  | inl e => (b', inl (Wrap e "getting lock data"))
  | inr None => (b', inr None)
  | inr (Some lockBytes) =>
      match Unmarshal lockBytes with
      | None => (b', inl (Wrap JSONError "deserializing lock at key %q"))
      | Some lock =>
          (b', inr (Some (ProjectLock.setTime lock (Time.Local (ProjectLock.Time lock)))))
      end
  end.

End LockStore.

(** ** The pull-status store *)

Section PullStatusStore.
Context `{!JSON PullStatus.t}.

Definition getPullFromBucket (key : string) : Tx (option PullStatus.t) :=
  serialized ← Get key;
  match serialized with
  | None => mret None
  | Some serialized =>
      match Unmarshal serialized with
      | None => fail (Wrap JSONError "deserializing pull at %q with contents %q")
      | Some p => mret (Some p)
      end
  end.

Definition writePullToBucket (key : string) (pull : PullStatus.t) : Tx () :=
  match Marshal pull with
  | None => fail (Wrap JSONError "serializing")
  | Some serialized => Put key serialized
  end.

Definition projectResultToProject (p : ProjectResult.t) : ProjectStatus.t :=
  ProjectStatus.mk (ProjectResult.Workspace p) (ProjectResult.RepoRelDir p)
    (ProjectResult.ProjectName p) (ProjectResult.PlanStatus p).

(** The test of the inner loop of the merge: the result and the stored
    project agree on workspace, directory and project name. *)
Definition sameProject (res : ProjectResult.t) (proj : ProjectStatus.t) : bool :=
  bool_decide (ProjectResult.Workspace res = ProjectStatus.Workspace proj) &&
  bool_decide (ProjectResult.RepoRelDir res = ProjectStatus.RepoRelDir proj) &&
  bool_decide (ProjectResult.ProjectName res = ProjectStatus.ProjectName proj).

(** The inner loop run from index [i]: the index of the first project that
    the result matches, where the loop updates and breaks. *)
Fixpoint findExisting (res : ProjectResult.t) (projects : list ProjectStatus.t)
    (i : nat) : option nat :=
  match projects with
  | [] => None
  | proj :: rest =>
      if sameProject res proj then Some i else findExisting res rest (S i)
  end.

(** One round of the outer loop of the merge. *)
Definition mergeResult (projects : list ProjectStatus.t) (res : ProjectResult.t)
    : list ProjectStatus.t :=
  match findExisting res projects 0 with
  | Some i =>
      (* proj := &newStatus.Projects[i]; proj.Status = res.PlanStatus() *)
      alter (λ proj, ProjectStatus.setStatus proj (ProjectResult.PlanStatus res)) i projects
  | None =>
      projects ++ [projectResultToProject res]
  end.

Definition UpdatePullWithResults (pull : PullRequest.t)
    (newResults : list ProjectResult.t) (b : BoltDB)
    : BoltDB * (error + PullStatus.t) :=
  match pullKey pull with
  | inl err => (b, inl err)
  | inr key =>
      let '(b', err) :=
        Update pullsBucketName (
          currStatus ← getPullFromBucket key;
          let newStatus :=
            match currStatus with
            | Some currStatus =>
                if bool_decide (PullRequest.HeadCommit (PullStatus.Pull currStatus)
                                ≠ PullRequest.HeadCommit pull)
                then PullStatus.mk pull (projectResultToProject <$> newResults)
                else
                  PullStatus.setProjects currStatus
                    (foldl mergeResult (PullStatus.Projects currStatus) newResults)
            | None => PullStatus.mk pull (projectResultToProject <$> newResults)
            end in
          writePullToBucket key newStatus;;
          mret newStatus) b in
      match err with
      | inl e => (b', inl (Wrap e "DB transaction failed"))
      | inr newStatus => (b', inr newStatus)
      end
  end.

Definition GetPullStatus (pull : PullRequest.t) (b : BoltDB)
    : BoltDB * (error + option PullStatus.t) :=
  match pullKey pull with
  | inl err => (b, inl err)
  | inr key =>
      let '(b', err) := View pullsBucketName (getPullFromBucket key) b in
      match err with
      | inl e => (b', inl (Wrap e "DB transaction failed"))
      | inr s => (b', inr s)
      end
  end.

Definition DeletePullStatus (pull : PullRequest.t) (b : BoltDB)
    : BoltDB * option error :=
  match pullKey pull with
  | inl err => (b, Some err)
  | inr key =>
      let '(b', err) := Update pullsBucketName (Delete key) b in
      match err with
      | inl e => (b', Some (Wrap e "DB transaction failed"))
      | inr _ => (b', None)
      end
  end.

Definition DeleteProjectStatus (pull : PullRequest.t)
    (workspace repoRelDir : string) (b : BoltDB) : BoltDB * option error :=
  match pullKey pull with
  | inl err => (b, Some err)
  | inr key =>
      let '(b', err) :=
        Update pullsBucketName (
          currStatusPtr ← getPullFromBucket key;
          match currStatusPtr with
          | None => mret ()
          | Some currStatus =>
              let newProjects :=
                filter (λ p, ¬ (ProjectStatus.Workspace p = workspace
                                ∧ ProjectStatus.RepoRelDir p = repoRelDir))
                  (PullStatus.Projects currStatus) in
              writePullToBucket key (PullStatus.setProjects currStatus newProjects)
          end) b in
      match err with
      | inl e => (b', Some (Wrap e "DB transaction failed"))
      | inr _ => (b', None)
      end
  end.

End PullStatusStore.

(** ** A wire format

    One serialisation to run the store on: each record is written as a tagged
    S-expression holding its fields in order. A time is written as its
    instant; read back, it is in UTC, so that the location is not kept by
    a round trip. *)
Module Wire.
Import Ceres.Ceres.
Local Open Scope sexp_scope.

#[local] Instance Serialize_Time : Serialize Time.t :=
  λ x, [Atom "time"; to_sexp (Time.unixNano x)].
#[local] Instance Deserialize_Time : Deserialize Time.t :=
  Deser.match_con "Time" [] [("time", Deser.con1_ (λ n, Time.mk n Time.UTC))].

#[local] Instance Serialize_Project : Serialize Project.t :=
  λ x, [Atom "project"; to_sexp (Project.RepoFullName x); to_sexp (Project.Path x)].
#[local] Instance Deserialize_Project : Deserialize Project.t :=
  Deser.match_con "Project" [] [("project", Deser.con2_ Project.mk)].

#[local] Instance Serialize_VCSHost : Serialize VCSHost.t :=
  λ x, [Atom "host"; to_sexp (VCSHost.Hostname x)].
#[local] Instance Deserialize_VCSHost : Deserialize VCSHost.t :=
  Deser.match_con "VCSHost" [] [("host", Deser.con1_ VCSHost.mk)].

#[local] Instance Serialize_Repo : Serialize Repo.t :=
  λ x, [Atom "repo"; to_sexp (Repo.FullName x); to_sexp (Repo.VCSHost x)].
#[local] Instance Deserialize_Repo : Deserialize Repo.t :=
  Deser.match_con "Repo" [] [("repo", Deser.con2_ Repo.mk)].

#[local] Instance Serialize_PullRequest : Serialize PullRequest.t :=
  λ x, [Atom "pull"; to_sexp (PullRequest.Num x); to_sexp (PullRequest.HeadCommit x);
        to_sexp (PullRequest.Branch x); to_sexp (PullRequest.Author x);
        to_sexp (PullRequest.BaseRepo x)].
#[local] Instance Deserialize_PullRequest : Deserialize PullRequest.t :=
  Deser.match_con "PullRequest" [] [("pull", Deser.con5_ PullRequest.mk)].

#[local] Instance Serialize_ProjectLock : Serialize ProjectLock.t :=
  λ x, [Atom "lock"; to_sexp (ProjectLock.Project x); to_sexp (ProjectLock.Pull x);
        to_sexp (ProjectLock.Workspace x); to_sexp (ProjectLock.Time x)].
#[local] Instance Deserialize_ProjectLock : Deserialize ProjectLock.t :=
  Deser.match_con "ProjectLock" [] [("lock", Deser.con4_ ProjectLock.mk)].

#[local] Instance Serialize_ProjectStatus : Serialize ProjectStatus.t :=
  λ x, [Atom "status"; to_sexp (ProjectStatus.Workspace x);
        to_sexp (ProjectStatus.RepoRelDir x); to_sexp (ProjectStatus.ProjectName x);
        to_sexp (ProjectStatus.Status x)].
#[local] Instance Deserialize_ProjectStatus : Deserialize ProjectStatus.t :=
  Deser.match_con "ProjectStatus" [] [("status", Deser.con4_ ProjectStatus.mk)].

#[local] Instance Serialize_PullStatus : Serialize PullStatus.t :=
  λ x, [Atom "pullstatus"; to_sexp (PullStatus.Pull x); to_sexp (PullStatus.Projects x)].
#[local] Instance Deserialize_PullStatus : Deserialize PullStatus.t :=
  Deser.match_con "PullStatus" [] [("pullstatus", Deser.con2_ PullStatus.mk)].

Definition decode {A} `{Deserialize A} (data : bytes) : option A :=
  match from_string data with
  | inl _ => None
  | inr x => Some x
  end.

Definition JSON_ProjectLock : JSON ProjectLock.t :=
  {| Marshal := λ x, Some (to_string x); Unmarshal := decode |}.

Definition JSON_PullStatus : JSON PullStatus.t :=
  {| Marshal := λ x, Some (to_string x); Unmarshal := decode |}.
(** The last instant of the year 9999, in nanoseconds since 1970; Go's
    [Time.MarshalJSON] refuses a later time. *)
Definition lastUnixNano : Z := 253402300799999999999.

(** [JSON_ProjectLock] with that refusal. *)
Definition JSON_ProjectLock_dated : JSON ProjectLock.t :=
  {| Marshal := λ x,
       if bool_decide (Time.unixNano (ProjectLock.Time x) ≤ lastUnixNano)%Z
       then Some (to_string x) else None;
     Unmarshal := decode |}.
End Wire.

(** ** Sample data *)
Module Sample.
Definition host : VCSHost.t := VCSHost.mk "github.com".
Definition repo : Repo.t := Repo.mk "org/repo" host.
Definition pull42 : PullRequest.t := PullRequest.mk 42 "c0ffee" "feature" "alice" repo.
Definition pull43 : PullRequest.t := PullRequest.mk 43 "decade" "hotfix" "bob" repo.

Definition lockA : ProjectLock.t :=
  ProjectLock.mk (Project.mk "org/repo" "infra") pull42 "default"
    (Time.mk 1500000000000000000 (Time.FixedZone 7200)).

(** A second claim on the slot of [lockA], by the other pull request. *)
Definition lockB : ProjectLock.t :=
  ProjectLock.mk (Project.mk "org/repo" "infra") pull43 "default"
    (Time.mk 1600000000000000000 Time.UTC).

Definition empty : BoltDB := mkBoltDB ∅ ∅ [].

(** [lockA] as it reads back from the store. *)
Definition lockA_stored : ProjectLock.t :=
  ProjectLock.setTime lockA (Time.mk 1500000000000000000 Time.UTC).

(** The store after [lockA] was acquired. *)
Definition held : BoltDB := (@TryLock Wire.JSON_ProjectLock lockA empty).1.

(** Pull request 42 of another repository, whose name extends "org/repo". *)
Definition otherRepo : Repo.t := Repo.mk "org/repo-other" host.
Definition otherPull42 : PullRequest.t :=
  PullRequest.mk 42 "f00d" "main" "carol" otherRepo.
Definition lockOther : ProjectLock.t :=
  ProjectLock.mk (Project.mk "org/repo-other" "infra") otherPull42 "default"
    (Time.mk 1700000000000000000 Time.UTC).
Definition lockC : ProjectLock.t :=
  ProjectLock.mk (Project.mk "org/repo" "net") pull43 "default"
    (Time.mk 1800000000000000000 Time.UTC).

(** [lockA] (org/repo, pull 42), [lockOther] (org/repo-other, pull 42) and
    [lockC] (org/repo, pull 43), acquired in turn. *)
Definition threeLocks : BoltDB :=
  (@TryLock Wire.JSON_ProjectLock lockC
     (@TryLock Wire.JSON_ProjectLock lockOther held).1).1.

Definition resP (status : Z) : ProjectResult.t :=
  ProjectResult.mk "default" "dir1" "p" status.
Definition resQ (status : Z) : ProjectResult.t :=
  ProjectResult.mk "staging" "dir2" "q" status.
Definition resOther (status : Z) : ProjectResult.t :=
  ProjectResult.mk "default" "dir1" "other" status.

(** Pull request 42 again: same head commit, other branch and author. *)
Definition renamedPull42 : PullRequest.t :=
  PullRequest.mk 42 "c0ffee" "renamed" "mallory" repo.
(** Pull request 42 after a push. *)
Definition movedPull42 : PullRequest.t :=
  PullRequest.mk 42 "0ddba11" "feature" "alice" repo.
Definition badHostPull : PullRequest.t :=
  PullRequest.mk 7 "abc" "main" "eve" (Repo.mk "org/repo" (VCSHost.mk "git::hub")).

Definition pullKey42 : string := "github.com::org/repo::42".

(** Stores holding one status record for pull request 42. *)
Definition onePlanned : BoltDB :=
  (@UpdatePullWithResults Wire.JSON_PullStatus pull42 [resP 1] empty).1.
Definition twiceP : BoltDB :=
  (@UpdatePullWithResults Wire.JSON_PullStatus pull42 [resP 1; resP 1] empty).1.
Definition mixed : BoltDB :=
  (@UpdatePullWithResults Wire.JSON_PullStatus pull42
     [resP 1; resOther 2; resQ 3] empty).1.

(** The value under a key of the pulls bucket. *)
Definition stored (b : BoltDB) (key : string) : bytes :=
  default "" (pulls b !! key).
(** A value that is no serialised record. *)
Definition garbage : bytes := "garbage".

(** [threeLocks] with the value of [lockA] overwritten by [garbage]. *)
Definition corruptLocks : BoltDB :=
  mkBoltDB (<["org/repo/infra/default" := garbage]> (runLocks threeLocks)) ∅ [].

(** [garbage] in the place of the status of pull request 42. *)
Definition corruptPulls : BoltDB := mkBoltDB ∅ {[ pullKey42 := garbage ]} [].

(** A lock taken after the year 9999. *)
Definition lockFarFuture : ProjectLock.t :=
  ProjectLock.mk (Project.mk "org/repo" "infra") pull42 "default"
    (Time.mk 300000000000000000000 Time.UTC).

(** A lock on the path repo/infra of the repository org. *)
Definition lockOrg : ProjectLock.t :=
  ProjectLock.mk (Project.mk "org" "repo/infra") pull43 "default"
    (Time.mk 1900000000000000000 Time.UTC).

(** Two pull requests that differ in where a colon sits. *)
Definition colonHostPull : PullRequest.t :=
  PullRequest.mk 42 "c0ffee" "feature" "alice" (Repo.mk "org/repo" (VCSHost.mk "git:")).
Definition colonRepoPull : PullRequest.t :=
  PullRequest.mk 42 "c0ffee" "feature" "alice" (Repo.mk ":org/repo" (VCSHost.mk "git")).
End Sample.

(** ** Notions used in the statements *)

(** Two locks that agree on everything but the location their time is
    displayed in: what a round trip through the serialisation may change. *)
Definition sameButLocation (x y : ProjectLock.t) : Prop :=
  ProjectLock.Project x = ProjectLock.Project y ∧
  ProjectLock.Pull x = ProjectLock.Pull y ∧
  ProjectLock.Workspace x = ProjectLock.Workspace y ∧
  Time.unixNano (ProjectLock.Time x) = Time.unixNano (ProjectLock.Time y).

(** Every value of the bucket decodes to a lock whose own key is the key it
    is stored under. *)
Definition wellKeyed `{!JSON ProjectLock.t} (bucket : gmap string bytes) : Prop :=
  ∀ k v, bucket !! k = Some v →
    ∃ lock, Unmarshal v = Some lock ∧
            lockKey (ProjectLock.Project lock) (ProjectLock.Workspace lock) = k.

(** The string holds the separator of pull keys somewhere. *)
Definition containsSeparator (s : string) : Prop :=
  ∃ before after, s = before ++ pullKeySeparator ++ after.

(** What identifies a project inside a pull status. *)
Definition projectKey (p : ProjectStatus.t) : string * string * string :=
  (ProjectStatus.Workspace p, ProjectStatus.RepoRelDir p, ProjectStatus.ProjectName p).

Definition resultKey (r : ProjectResult.t) : string * string * string :=
  (ProjectResult.Workspace r, ProjectResult.RepoRelDir r, ProjectResult.ProjectName r).

Definition uniqueProjects (s : PullStatus.t) : Prop :=
  NoDup (projectKey <$> PullStatus.Projects s).

(** The status built on the replace path and on the merge path. *)
Definition replaced (pull : PullRequest.t) (newResults : list ProjectResult.t)
    : PullStatus.t :=
  PullStatus.mk pull (projectResultToProject <$> newResults).

Definition merged (currStatus : PullStatus.t) (newResults : list ProjectResult.t)
    : PullStatus.t :=
  PullStatus.mk (PullStatus.Pull currStatus)
    (foldl mergeResult (PullStatus.Projects currStatus) newResults).

(** No record under the key, or a record at another head commit. *)
Definition outOfDate `{!JSON PullStatus.t} (b : BoltDB) (key : string)
    (pull : PullRequest.t) : Prop :=
  pulls b !! key = None ∨
  ∃ v currStatus,
    pulls b !! key = Some v ∧ Unmarshal v = Some currStatus ∧
    PullRequest.HeadCommit (PullStatus.Pull currStatus) ≠ PullRequest.HeadCommit pull.

(** The projects that [DeleteProjectStatus] keeps. *)
Definition pruned (workspace repoRelDir : string) (projects : list ProjectStatus.t)
    : list ProjectStatus.t :=
  filter (λ p, ¬ (ProjectStatus.Workspace p = workspace
                  ∧ ProjectStatus.RepoRelDir p = repoRelDir)) projects.

(** The status [UpdatePullWithResults] builds from what it finds stored. *)
Definition newStatus (pull : PullRequest.t) (newResults : list ProjectResult.t)
    (currStatus : option PullStatus.t) : PullStatus.t :=
  match currStatus with
  | Some currStatus =>
      if bool_decide (PullRequest.HeadCommit (PullStatus.Pull currStatus)
                      ≠ PullRequest.HeadCommit pull)
      then replaced pull newResults
      else merged currStatus newResults
  | None => replaced pull newResults
  end.

(** The last of the results that speaks about a project. *)
Definition lastResult (key : string * string * string) (results : list ProjectResult.t)
    : option ProjectResult.t :=
  last (filter (λ r, resultKey r = key) results).

(** The string ends with a colon. *)
Definition endsWithColon (s : string) : Prop := ∃ before, s = before ++ ":".

(** The last byte of a string. *)
Fixpoint lastByte (s : string) : option Ascii.ascii :=
  match s with
  | EmptyString => None
  | String c EmptyString => Some c
  | String _ rest => lastByte rest
  end.

(** * Properties *)

Ltac tx_unfold :=
  unfold Update, View, commit, rollback, Bucket, mbind, mret, Tx_bind, Tx_ret,
    Get, Put, Delete, fail; simpl.

Section KeyCodecProps.

Lemma append_cons_l (c : Ascii.ascii) (s t : string) : String c s ++ t = String c (s ++ t).
Proof. reflexivity. Qed.

Lemma prefix_spec (p s : string) :
  String.prefix p s = true ↔ ∃ after, s = p ++ after.
Proof.
  revert s. induction p as [|c p IH]; intros s.
  - split; [|by destruct s]. intros _. by exists s.
  - destruct s as [|d s]; simpl.
    + split; [done|]. by intros [? ?].
    + destruct (Ascii.ascii_dec c d) as [->|Hcd].
      * rewrite IH. split; intros [after Hafter]; exists after;
          rewrite append_cons_l in *; congruence.
      * split; [done|]. intros [after Hafter].
        rewrite append_cons_l in Hafter. congruence.
Qed.

Lemma strings_Contains_nil (substr : string) :
  strings_Contains "" substr = String.prefix substr "".
Proof. unfold strings_Contains. apply orb_false_r. Qed.

Lemma strings_Contains_cons (c : Ascii.ascii) (s substr : string) :
  strings_Contains (String c s) substr =
    String.prefix substr (String c s) || strings_Contains s substr.
Proof. reflexivity. Qed.

Lemma strings_Contains_spec (s substr : string) :
  strings_Contains s substr = true ↔ ∃ before after, s = before ++ substr ++ after.
Proof.
  induction s as [|c s IH].
  - rewrite strings_Contains_nil, prefix_spec. split.
    + intros [after ->]. by exists "", after.
    + intros ([|? ?] & after & Heq); [eauto|done].
  - rewrite strings_Contains_cons, orb_true_iff, prefix_spec, IH. split.
    + intros [[after Heq]|(before & after & ->)].
      * by exists "", after.
      * by exists (String c before), after.
    + intros ([|d before] & after & Heq).
      * left. eauto.
      * right. exists before, after. rewrite append_cons_l in Heq. congruence.
Qed.

Lemma strings_Contains_separator (s : string) :
  strings_Contains s pullKeySeparator = true ↔ containsSeparator s.
Proof. apply strings_Contains_spec. Qed.

Lemma pullKey_ok pull :
  let hostname := VCSHost.Hostname (Repo.VCSHost (PullRequest.BaseRepo pull)) in
  let repo := Repo.FullName (PullRequest.BaseRepo pull) in
  ¬ containsSeparator hostname → ¬ containsSeparator repo →
  pullKey pull = inr (hostname ++ "::" ++ repo ++ "::" ++ pretty (PullRequest.Num pull)).
Proof.
  intros hostname repo Hh Hr. unfold pullKey. fold hostname repo.
  rewrite <- strings_Contains_separator in Hh, Hr.
  apply not_true_is_false in Hh, Hr. by rewrite Hh, Hr.
Qed.

Lemma pullKey_invalid pull :
  let hostname := VCSHost.Hostname (Repo.VCSHost (PullRequest.BaseRepo pull)) in
  let repo := Repo.FullName (PullRequest.BaseRepo pull) in
  containsSeparator hostname ∨ containsSeparator repo →
  ∃ format args, pullKey pull = inl (Errorf format args).
Proof.
  intros hostname repo Hsep. unfold pullKey. fold hostname repo.
  destruct (strings_Contains hostname pullKeySeparator) eqn:Hh; [eauto|].
  destruct (strings_Contains repo pullKeySeparator) eqn:Hr; [eauto|].
  rewrite <- !strings_Contains_separator in Hsep. destruct Hsep; congruence.
Qed.
(** *** The order of keys and their prefixes *)

Lemma append_assoc (s t u : string) : (s ++ t) ++ u = s ++ t ++ u.
Proof. induction s as [|c s IH]; [done|]. by rewrite !append_cons_l, IH. Qed.

Lemma Ascii_compare_refl (c : Ascii.ascii) : Ascii.compare c c = Eq.
Proof. apply N.compare_refl. Qed.

Lemma Ascii_compare_Lt_trans (a b c : Ascii.ascii) :
  Ascii.compare a b = Lt → Ascii.compare b c = Lt → Ascii.compare a c = Lt.
Proof. unfold Ascii.compare. rewrite !N.compare_lt_iff. lia. Qed.

Lemma leb_trans (a b c : string) :
  String.leb a b = true → String.leb b c = true → String.leb a c = true.
Proof.
  unfold String.leb. revert b c.
  induction a as [|x a IH]; intros [|y b] [|z c]; simpl; try done.
  destruct (Ascii.compare x y) eqn:Hxy; [| |done].
  - apply Ascii.compare_eq_iff in Hxy as ->.
    destruct (Ascii.compare y z); [apply IH|done..].
  - destruct (Ascii.compare y z) eqn:Hyz; [| |done].
    + apply Ascii.compare_eq_iff in Hyz as <-. by rewrite Hxy.
    + by rewrite (Ascii_compare_Lt_trans _ _ _ Hxy Hyz).
Qed.

Lemma ltb_false_leb (a b : string) :
  String.ltb a b = false ↔ String.leb b a = true.
Proof.
  unfold String.ltb, String.leb. rewrite (String.compare_antisym a b).
  by destruct (String.compare b a).
Qed.

Lemma prefix_leb (p k : string) :
  String.prefix p k = true → String.leb p k = true.
Proof.
  unfold String.leb. revert k.
  induction p as [|c p IH]; intros [|d k]; simpl; try done.
  destruct (Ascii.ascii_dec c d) as [->|]; [|done].
  rewrite Ascii_compare_refl. apply IH.
Qed.

Lemma prefix_between (p k' k : string) :
  String.leb p k' = true → String.leb k' k = true →
  String.prefix p k = true → String.prefix p k' = true.
Proof.
  unfold String.leb. revert k' k.
  induction p as [|c p IH]; intros [|a k'] [|b k]; simpl; try done.
  destruct (Ascii.ascii_dec c b) as [<-|]; [|done].
  rewrite (Ascii.compare_antisym a c).
  destruct (Ascii.compare c a) eqn:Hca; simpl; [| |done].
  - apply Ascii.compare_eq_iff in Hca as <-.
    destruct (Ascii.ascii_dec c c); [|done]. apply IH.
  - done.
Qed.

End KeyCodecProps.


Section LockStoreProps.
Context `{!JSON ProjectLock.t}.

Lemma TryLock_held newLock b v currLock :
  runLocks b !! lockKey (ProjectLock.Project newLock) (ProjectLock.Workspace newLock) = Some v →
  Unmarshal v = Some currLock →
  TryLock newLock b = (rollback ReadWrite b, inr (false, currLock)).
Proof.
  intros Hv Hdec. unfold TryLock. tx_unfold. rewrite Hv, Hdec. simpl.
  by destruct b.
Qed.

Lemma TryLock_free newLock b :
  let key := lockKey (ProjectLock.Project newLock) (ProjectLock.Workspace newLock) in
  runLocks b !! key = None →
  TryLock newLock b =
    (commit locksBucketName (<[key := default "" (Marshal newLock)]> (runLocks b)) ReadWrite b,
     inr (true, newLock)).
Proof. intros key Hv. unfold TryLock. tx_unfold. fold key. by rewrite Hv. Qed.

Lemma TryLock_keeps newLock b v :
  let key := lockKey (ProjectLock.Project newLock) (ProjectLock.Workspace newLock) in
  runLocks b !! key = Some v →
  runLocks (TryLock newLock b).1 = runLocks b.
Proof.
  intros key Hv. unfold TryLock. tx_unfold. fold key. rewrite Hv.
  by destruct (Unmarshal v).
Qed.

(** What [TryLock] keeps of C1 for a candidate that serialises: it never
    overwrites a lock. When a lock that decodes is stored
    at the key of the candidate's project and workspace, [TryLock] returns
    false with that lock and leaves the bucket as it was; when nothing is
    stored at the key, it returns true with the candidate and puts the
    serialised candidate at the key; and whatever value is stored at the key,
    decodable or not, is still there afterwards. *)
Theorem TryLock_never_overwrites (newLock : ProjectLock.t) (b : BoltDB) :
  let key := lockKey (ProjectLock.Project newLock) (ProjectLock.Workspace newLock) in
  (∀ v currLock,
      runLocks b !! key = Some v → Unmarshal v = Some currLock →
      (TryLock newLock b).2 = inr (false, currLock) ∧
      runLocks (TryLock newLock b).1 = runLocks b)
  ∧ (∀ serialized,
      runLocks b !! key = None → Marshal newLock = Some serialized →
      (TryLock newLock b).2 = inr (true, newLock) ∧
      runLocks (TryLock newLock b).1 = <[key := serialized]> (runLocks b))
  ∧ (∀ v,
      runLocks b !! key = Some v →
      runLocks (TryLock newLock b).1 !! key = Some v).
Proof.
  intros key. split_and!.
  - intros v currLock Hv Hdec. by rewrite (TryLock_held _ _ _ _ Hv Hdec).
  - intros serialized Hv Hser. rewrite (TryLock_free _ _ Hv). fold key.
    by rewrite Hser.
  - intros v Hv. by rewrite (TryLock_keeps _ _ _ Hv).
Qed.

Lemma Unlock_absent p workspace b :
  runLocks b !! lockKey p workspace = None →
  Unlock p workspace b = (rollback ReadWrite b, inr None).
Proof.
  intros Hv. unfold Unlock. tx_unfold. rewrite Hv. simpl.
  rewrite delete_id by done. by destruct b.
Qed.

Lemma Unlock_present p workspace b v lock :
  runLocks b !! lockKey p workspace = Some v →
  Unmarshal v = Some lock →
  Unlock p workspace b =
    (commit locksBucketName (delete (lockKey p workspace) (runLocks b)) ReadWrite b,
     inr (Some lock)).
Proof. intros Hv Hdec. unfold Unlock. tx_unfold. by rewrite Hv, Hdec. Qed.

Lemma Unlock_other p workspace b k :
  k ≠ lockKey p workspace →
  runLocks (Unlock p workspace b).1 !! k = runLocks b !! k.
Proof.
  intros Hk. unfold Unlock. tx_unfold.
  destruct (runLocks b !! lockKey p workspace) as [v|] eqn:Hv; simpl.
  - destruct (Unmarshal v); simpl; [|done]. by rewrite lookup_delete_ne.
  - by rewrite lookup_delete_ne.
Qed.

(** C9. [Unlock] on a project and workspace with nothing stored at their key
    returns a nil lock and no error and leaves the bucket as it was; when a
    lock is stored there, [Unlock] returns it and the key is free afterwards;
    in every case the entries under all other keys are untouched. *)
Theorem Unlock_releases (p : Project.t) (workspace : string) (b : BoltDB) :
  let key := lockKey p workspace in
  (runLocks b !! key = None →
     (Unlock p workspace b).2 = inr None ∧
     runLocks (Unlock p workspace b).1 = runLocks b)
  ∧ (∀ v lock,
     runLocks b !! key = Some v → Unmarshal v = Some lock →
     (Unlock p workspace b).2 = inr (Some lock) ∧
     runLocks (Unlock p workspace b).1 !! key = None)
  ∧ (∀ k, k ≠ key →
     runLocks (Unlock p workspace b).1 !! k = runLocks b !! k).
Proof.
  intros key. split_and!.
  - intros Hv. by rewrite (Unlock_absent _ _ _ Hv).
  - intros v lock Hv Hdec. rewrite (Unlock_present _ _ _ _ _ Hv Hdec). simpl.
    split; [done|]. apply lookup_delete_eq.
  - intros k Hk. by apply Unlock_other.
Qed.




(** *** What [UnlockByPull] leaves alone *)

(** [TryLock] keeps a bucket well keyed when the serialisation of the
    candidate reads back as the same project and workspace. *)
Lemma TryLock_wellKeyed newLock b serialized decoded :
  wellKeyed (runLocks b) →
  Marshal newLock = Some serialized →
  Unmarshal serialized = Some decoded →
  sameButLocation decoded newLock →
  wellKeyed (runLocks (TryLock newLock b).1).
Proof.
  intros Hwell Hser Hdec (HP & _ & HW & _).
  destruct (runLocks b !! lockKey (ProjectLock.Project newLock)
                            (ProjectLock.Workspace newLock)) as [v|] eqn:Hv.
  - by rewrite (TryLock_keeps _ _ _ Hv).
  - rewrite (TryLock_free _ _ Hv), Hser. simpl. intros k v' Hk.
    apply lookup_insert_Some in Hk as [[<- <-]|[_ Hk]]; [|by apply Hwell].
    exists decoded. by rewrite HP, HW.
Qed.

Lemma Seek_subseteq seek (c : list (string * bytes)) : Seek seek c ⊆ c.
Proof.
  induction c as [|kv rest IH]; simpl; [done|].
  destruct (String.ltb kv.1 seek); [|done]. by apply list_subseteq_cons.
Qed.

Lemma Cursor_elem_of (bucket : gmap string bytes) k v :
  (k, v) ∈ Cursor bucket ↔ bucket !! k = Some v.
Proof.
  unfold Cursor. rewrite merge_sort_Permutation. apply elem_of_map_to_list.
Qed.

Lemma scan_found repoFullName pullNum (c : list (string * bytes)) acc lock :
  lock ∈ (scan repoFullName pullNum c acc).1 →
  lock ∈ acc ∨
  ∃ k v, (k, v) ∈ c ∧ bytes_HasPrefix k repoFullName = true ∧
         Unmarshal v = Some lock ∧
         PullRequest.Num (ProjectLock.Pull lock) = pullNum.
Proof.
  revert acc. induction c as [|[k v] rest IH]; intros acc; simpl; [by left|].
  destruct (bytes_HasPrefix k repoFullName) eqn:Hprefix; [|by left].
  destruct (Unmarshal v) as [found|] eqn:Hdec; [|by left].
  case_bool_decide as Hnum.
  - intros Hin. apply IH in Hin as [Hacc|(k' & v' & Hin & Hrest)].
    + apply elem_of_app in Hacc as [Hacc | ->%list_elem_of_singleton]; [by left|].
      right. exists k, v. split_and!; [left|done..].
    + right. exists k', v'. split; [by right|done].
  - intros Hin. apply IH in Hin as [Hacc|(k' & v' & Hin & Hrest)]; [by left|].
    right. exists k', v'. split; [by right|done].
Qed.

Lemma unlockAll_other (locks : list ProjectLock.t) b k :
  (∀ lock, lock ∈ locks →
     lockKey (ProjectLock.Project lock) (ProjectLock.Workspace lock) ≠ k) →
  runLocks (unlockAll locks b).1 !! k = runLocks b !! k.
Proof.
  revert b. induction locks as [|lock rest IH]; intros b Hother; simpl; [done|].
  pose proof (Unlock_other (ProjectLock.Project lock) (ProjectLock.Workspace lock) b k) as Hstep.
  destruct (Unlock _ _ b) as [b' [e|found]]; simpl in *.
  - apply Hstep. intros ->. by eapply Hother; [left|].
  - rewrite IH.
    + apply Hstep. intros ->. by eapply Hother; [left|].
    + intros lock' Hin. apply Hother. by right.
Qed.

(** What [UnlockByPull] leaves alone in a well-keyed bucket: every lock whose
    key does not start with the repository name, and every lock held by
    another pull number. *)
Lemma UnlockByPull_keeps repoFullName pullNum b k v lock :
  wellKeyed (runLocks b) →
  runLocks b !! k = Some v →
  Unmarshal v = Some lock →
  bytes_HasPrefix k repoFullName = false ∨
    PullRequest.Num (ProjectLock.Pull lock) ≠ pullNum →
  runLocks (UnlockByPull repoFullName pullNum b).1 !! k = Some v.
Proof.
  intros Hwell Hv Hdec Hkeep. unfold UnlockByPull, View. simpl.
  destruct (scan repoFullName pullNum (Seek repoFullName (Cursor (runLocks b))) [])
    as [locks [err|]] eqn:Hscan; simpl; [done|].
  destruct (unlockAll locks (rollback ReadOnly b)) as [b2 err] eqn:Hunlock. simpl.
  change b2 with (b2, err).1. rewrite <- Hunlock, unlockAll_other; [done|].
  intros lock' Hin Hkey.
  change locks with (locks, @None error).1 in Hin. rewrite <- Hscan in Hin.
  apply scan_found in Hin as [Hin|(k' & v' & Hin & Hprefix & Hdec' & Hnum)];
    [by apply elem_of_nil in Hin|].
  apply Seek_subseteq, Cursor_elem_of in Hin.
  destruct (Hwell _ _ Hin) as (lock'' & Hdec'' & Hkey'').
  assert (k' = k) as -> by congruence.
  assert (lock' = lock) as -> by congruence.
  destruct Hkeep; congruence.
Qed.
(** *** What [UnlockByPull] releases *)

Abbreviation keyLe := (λ x y : string * bytes, Is_true (String.leb x.1 y.1)).

Lemma Cursor_sorted (bucket : gmap string bytes) : StronglySorted keyLe (Cursor bucket).
Proof.
  apply StronglySorted_merge_sort.
  - intros x y z Hxy Hyz. apply Is_true_true in Hxy, Hyz. apply Is_true_true.
    by eapply leb_trans.
  - intros x y. destruct (String.leb_total x.1 y.1) as [Hle|Hle];
      [left|right]; by apply Is_true_true.
Qed.

Lemma Seek_keeps seek (c : list (string * bytes)) kv :
  kv ∈ c → String.leb seek kv.1 = true → kv ∈ Seek seek c.
Proof.
  intros Hin Hle. induction c as [|kv' rest IH]; simpl; [done|].
  destruct (String.ltb kv'.1 seek) eqn:Hlt; [|done].
  apply elem_of_cons in Hin as [->|Hin]; [|by apply IH].
  apply ltb_false_leb in Hle. congruence.
Qed.

Lemma Seek_sorted seek (c : list (string * bytes)) :
  StronglySorted keyLe c →
  StronglySorted keyLe (Seek seek c) ∧
  ∀ kv, kv ∈ Seek seek c → String.leb seek kv.1 = true.
Proof.
  induction 1 as [|kv rest Hsorted IH Hall]; simpl.
  - split; [constructor|]. by intros kv' ?%elem_of_nil.
  - destruct (String.ltb kv.1 seek) eqn:Hlt; [done|].
    apply ltb_false_leb in Hlt. split; [by constructor|].
    intros kv' [->|Hin]%elem_of_cons; [done|].
    rewrite Forall_forall in Hall. apply Hall, Is_true_true in Hin.
    by eapply leb_trans.
Qed.

Lemma scan_acc repoFullName pullNum (c : list (string * bytes)) acc lock :
  lock ∈ acc → lock ∈ (scan repoFullName pullNum c acc).1.
Proof.
  revert acc. induction c as [|[k v] rest IH]; intros acc Hacc; simpl; [done|].
  destruct (bytes_HasPrefix k repoFullName); [|done].
  destruct (Unmarshal v); [|done].
  case_bool_decide; apply IH; [|done]. apply elem_of_app. by left.
Qed.

Lemma scan_complete repoFullName pullNum (c : list (string * bytes)) acc :
  StronglySorted keyLe c →
  (∀ kv, kv ∈ c → String.leb repoFullName kv.1 = true) →
  (∀ kv, kv ∈ c → is_Some (Unmarshal (A:=ProjectLock.t) kv.2)) →
  (scan repoFullName pullNum c acc).2 = None ∧
  ∀ k v lock,
    (k, v) ∈ c → bytes_HasPrefix k repoFullName = true →
    Unmarshal v = Some lock →
    PullRequest.Num (ProjectLock.Pull lock) = pullNum →
    lock ∈ (scan repoFullName pullNum c acc).1.
Proof.
  intros Hsorted. revert acc.
  induction Hsorted as [|[k0 v0] rest Hsorted IH Hall]; intros acc Hge Hdecodes; simpl.
  - split; [done|]. by intros k v lock ?%elem_of_nil.
  - assert (∀ kv, kv ∈ rest → String.leb repoFullName kv.1 = true) as Hge'
      by (intros kv Hin; apply Hge; by right).
    assert (∀ kv, kv ∈ rest → is_Some (Unmarshal (A:=ProjectLock.t) kv.2)) as Hdecodes'
      by (intros kv Hin; apply Hdecodes; by right).
    destruct (bytes_HasPrefix k0 repoFullName) eqn:Hprefix0.
    + destruct (Hdecodes (k0, v0)) as [lock0 Hdec0]; [by left|]. simpl in Hdec0.
      rewrite Hdec0. case_bool_decide as Hnum0.
      * destruct (IH (acc ++ [lock0])%list Hge' Hdecodes') as [Herr Hfound].
        split; [done|]. intros k v lock [[= -> ->]|Hin]%elem_of_cons Hprefix Hdec Hnum.
        -- apply scan_acc, elem_of_app. right. apply list_elem_of_singleton. congruence.
        -- by eapply Hfound.
      * destruct (IH acc Hge' Hdecodes') as [Herr Hfound].
        split; [done|]. intros k v lock [[= -> ->]|Hin]%elem_of_cons Hprefix Hdec Hnum.
        -- congruence.
        -- by eapply Hfound.
    + split; [done|]. simpl.
      intros k v lock [[= -> ->]|Hin]%elem_of_cons Hprefix Hdec Hnum; [congruence|].
      rewrite Forall_forall in Hall. apply Hall, Is_true_true in Hin. simpl in Hin.
      unfold bytes_HasPrefix in *.
      rewrite (prefix_between repoFullName k0 k) in Hprefix0; [done| |done..].
      by apply (Hge (k0, v0)); left.
Qed.

Lemma wellKeyed_delete (bucket : gmap string bytes) k :
  wellKeyed bucket → wellKeyed (delete k bucket).
Proof. intros Hwell k' v [_ Hk']%lookup_delete_Some. by apply Hwell. Qed.

Lemma Unlock_wellKeyed p workspace b :
  wellKeyed (runLocks b) →
  ∃ found,
    (Unlock p workspace b).2 = inr found ∧
    runLocks (Unlock p workspace b).1 = delete (lockKey p workspace) (runLocks b).
Proof.
  intros Hwell.
  destruct (runLocks b !! lockKey p workspace) as [v|] eqn:Hv.
  - destruct (Hwell _ _ Hv) as (lock & Hdec & _).
    exists (Some lock). by rewrite (Unlock_present _ _ _ _ _ Hv Hdec).
  - exists None. rewrite (Unlock_absent _ _ _ Hv). simpl.
    by rewrite delete_id.
Qed.

Lemma unlockAll_wellKeyed (locks : list ProjectLock.t) b :
  wellKeyed (runLocks b) →
  (unlockAll locks b).2 = None ∧
  ∀ k, (runLocks b !! k = None ∨
        ∃ lock, lock ∈ locks ∧
          lockKey (ProjectLock.Project lock) (ProjectLock.Workspace lock) = k) →
       runLocks (unlockAll locks b).1 !! k = None.
Proof.
  revert b. induction locks as [|lock rest IH]; intros b Hwell; simpl.
  - split; [done|]. intros k [Hnone|(lock & []%elem_of_nil & _)]. done.
  - destruct (Unlock_wellKeyed (ProjectLock.Project lock) (ProjectLock.Workspace lock)
                b Hwell) as (found & Hres & Hbucket).
    destruct (Unlock _ _ b) as [b' res]. simpl in *. subst res.
    destruct (IH b') as [Herr Hgone]; [rewrite Hbucket; by apply wellKeyed_delete|].
    split; [done|]. intros k Hk. apply Hgone. rewrite Hbucket.
    destruct Hk as [Hnone|(lock' & [->|Hin]%elem_of_cons & Hkey)].
    + left. rewrite lookup_delete_None. by right.
    + left. rewrite <- Hkey. apply lookup_delete_eq.
    + right. by exists lock'.
Qed.

(** What [UnlockByPull] releases in a well-keyed bucket: every lock whose
    key starts with the repository name and whose pull number is the given
    one, whatever repository it belongs to. *)
Lemma UnlockByPull_releases repoFullName pullNum b k v lock :
  wellKeyed (runLocks b) →
  runLocks b !! k = Some v →
  Unmarshal v = Some lock →
  bytes_HasPrefix k repoFullName = true →
  PullRequest.Num (ProjectLock.Pull lock) = pullNum →
  (UnlockByPull repoFullName pullNum b).2.2 = None ∧
  lock ∈ (UnlockByPull repoFullName pullNum b).2.1 ∧
  runLocks (UnlockByPull repoFullName pullNum b).1 !! k = None.
Proof.
  intros Hwell Hv Hdec Hprefix Hnum. unfold UnlockByPull, View. simpl.
  destruct (Seek_sorted repoFullName _ (Cursor_sorted (runLocks b))) as [Hsorted Hge].
  destruct (scan_complete repoFullName pullNum _ [] Hsorted Hge) as [Herr Hfound].
  { intros [k' v'] Hin. apply Seek_subseteq, Cursor_elem_of in Hin.
    destruct (Hwell _ _ Hin) as (lock' & Hdec' & _). by exists lock'. }
  specialize (Hfound k v lock).
  destruct (scan repoFullName pullNum (Seek repoFullName (Cursor (runLocks b))) [])
    as [locks err]. simpl in *. subst err.
  assert (lock ∈ locks) as Hin.
  { apply Hfound; [|done..]. apply Seek_keeps; [by apply Cursor_elem_of|].
    by apply prefix_leb. }
  destruct (unlockAll_wellKeyed locks (rollback ReadOnly b) Hwell) as [Herr Hgone].
  destruct (unlockAll locks (rollback ReadOnly b)) as [b2 err]. simpl in *.
  split_and!; [done..|]. apply Hgone. right. exists lock. split; [done|].
  destruct (Hwell _ _ Hv) as (lock' & Hdec' & Hkey). congruence.
Qed.

(** C2. [UnlockByPull] releases the locks of other repositories too: a lock
    held by pull request [pullNum] of a repository whose full name extends
    [repoFullName] (as "org/repo-other" extends "org/repo") is found by the
    scan of the prefix [repoFullName], returned and deleted. *)
Theorem UnlockByPull_releases_other_repository (repoFullName suffix : string)
    (pullNum : Z) (b : BoltDB) (lock : ProjectLock.t) (v : bytes) :
  let key := lockKey (ProjectLock.Project lock) (ProjectLock.Workspace lock) in
  wellKeyed (runLocks b) →
  suffix ≠ "" →
  Project.RepoFullName (ProjectLock.Project lock) = repoFullName ++ suffix →
  runLocks b !! key = Some v →
  Unmarshal v = Some lock →
  PullRequest.Num (ProjectLock.Pull lock) = pullNum →
  (UnlockByPull repoFullName pullNum b).2.2 = None ∧
  lock ∈ (UnlockByPull repoFullName pullNum b).2.1 ∧
  runLocks (UnlockByPull repoFullName pullNum b).1 !! key = None.
Proof.
  intros key Hwell _ Hrepo Hv Hdec Hnum.
  apply (UnlockByPull_releases _ _ _ _ v); [done..| |done].
  apply prefix_spec. unfold key, lockKey. rewrite Hrepo, append_assoc. eauto.
Qed.

End LockStoreProps.


Section LockStoreExamples.
Import Sample.
#[local] Existing Instance Wire.JSON_ProjectLock.

Lemma TryLock_never_overwrites_witness :
  ((TryLock lockB held).2 = inr (false, lockA_stored) ∧
   runLocks (TryLock lockB held).1 = runLocks held)
  ∧ ((TryLock lockA empty).2 = inr (true, lockA) ∧
     runLocks (TryLock lockA empty).1 =
       {[ "org/repo/infra/default" := default "" (Marshal lockA) ]})
  ∧ runLocks (TryLock lockB held).1 !! "org/repo/infra/default" = Marshal lockA.
Proof.
  split; [|split].
  - apply (proj1 (TryLock_never_overwrites lockB held) (default "" (Marshal lockA)));
      vm_compute; reflexivity.
  - apply (proj1 (proj2 (TryLock_never_overwrites lockA empty)) (default "" (Marshal lockA)));
      vm_compute; reflexivity.
  - apply (proj2 (proj2 (TryLock_never_overwrites lockB held))).
    vm_compute; reflexivity.
Defined.

Lemma Unlock_releases_witness :
  ((Unlock (ProjectLock.Project lockA) "default" empty).2 = inr None ∧
   runLocks (Unlock (ProjectLock.Project lockA) "default" empty).1 = runLocks empty)
  ∧ ((Unlock (ProjectLock.Project lockA) "default" held).2 = inr (Some lockA_stored) ∧
     runLocks (Unlock (ProjectLock.Project lockA) "default" held).1
       !! "org/repo/infra/default" = None)
  ∧ runLocks (Unlock (Project.mk "org/repo" "other") "default" held).1
      !! "org/repo/infra/default" = runLocks held !! "org/repo/infra/default".
Proof.
  split; [|split].
  - apply (proj1 (Unlock_releases (ProjectLock.Project lockA) "default" empty)).
    vm_compute; reflexivity.
  - apply (proj1 (proj2 (Unlock_releases (ProjectLock.Project lockA) "default" held))
             (default "" (Marshal lockA)));
      vm_compute; reflexivity.
  - apply (proj2 (proj2 (Unlock_releases (Project.mk "org/repo" "other") "default" held))).
    vm_compute. discriminate.
Defined.

End LockStoreExamples.

Section PullStatusProps.
Context `{!JSON PullStatus.t}.

(** C6. When the hostname or the full name of the base repository of a pull
    request holds the separator "::", [pullKey] fails, and
    [UpdatePullWithResults], [GetPullStatus], [DeletePullStatus] and
    [DeleteProjectStatus] return that error with the store as it was,
    transaction log included: no transaction was opened. When neither holds
    the separator, the key is hostname, "::", repository, "::", number. *)
Theorem pullKey_validation (pull : PullRequest.t) (b : BoltDB) :
  let hostname := VCSHost.Hostname (Repo.VCSHost (PullRequest.BaseRepo pull)) in
  let repo := Repo.FullName (PullRequest.BaseRepo pull) in
  (containsSeparator hostname ∨ containsSeparator repo →
     ∃ format args,
       let err := Errorf format args in
       pullKey pull = inl err ∧
       (∀ newResults, UpdatePullWithResults pull newResults b = (b, inl err)) ∧
       GetPullStatus pull b = (b, inl err) ∧
       DeletePullStatus pull b = (b, Some err) ∧
       (∀ workspace repoRelDir,
          DeleteProjectStatus pull workspace repoRelDir b = (b, Some err)))
  ∧ (¬ containsSeparator hostname → ¬ containsSeparator repo →
     pullKey pull = inr (hostname ++ "::" ++ repo ++ "::" ++ pretty (PullRequest.Num pull))).
Proof.
  intros hostname repo. split.
  - intros Hsep. destruct (pullKey_invalid pull Hsep) as (format & args & Herr).
    exists format, args. unfold UpdatePullWithResults, GetPullStatus, DeletePullStatus,
      DeleteProjectStatus. by rewrite Herr.
  - apply pullKey_ok.
Qed.

Lemma UpdatePullWithResults_replaced pull newResults b key serialized :
  pullKey pull = inr key →
  outOfDate b key pull →
  Marshal (replaced pull newResults) = Some serialized →
  UpdatePullWithResults pull newResults b =
    (commit pullsBucketName (<[key := serialized]> (pulls b)) ReadWrite b,
     inr (replaced pull newResults)).
Proof.
  intros Hkey Hold Hser. unfold UpdatePullWithResults, getPullFromBucket, writePullToBucket.
  rewrite Hkey. tx_unfold. unfold replaced in Hser.
  destruct Hold as [Hnone|(v & currStatus & Hv & Hdec & Hne)].
  - rewrite Hnone. simpl. by rewrite Hser.
  - rewrite Hv, Hdec. simpl. rewrite bool_decide_eq_true_2 by done.
    by rewrite Hser.
Qed.

Lemma UpdatePullWithResults_merged pull newResults b key v currStatus serialized :
  pullKey pull = inr key →
  pulls b !! key = Some v →
  Unmarshal v = Some currStatus →
  PullRequest.HeadCommit (PullStatus.Pull currStatus) = PullRequest.HeadCommit pull →
  Marshal (merged currStatus newResults) = Some serialized →
  UpdatePullWithResults pull newResults b =
    (commit pullsBucketName (<[key := serialized]> (pulls b)) ReadWrite b,
     inr (merged currStatus newResults)).
Proof.
  intros Hkey Hv Hdec Hhead Hser.
  unfold UpdatePullWithResults, getPullFromBucket, writePullToBucket.
  rewrite Hkey. tx_unfold. rewrite Hv, Hdec. simpl.
  rewrite bool_decide_eq_false_2 by (by intros ?).
  unfold merged, PullStatus.setProjects in *. by rewrite Hser.
Qed.

(** C5. When nothing is stored under the key of [P], or the stored status is
    at another head commit, [UpdatePullWithResults P R] returns the status
    made of [P] and of the conversions of [R] in order, and stores its
    serialisation under the key: no project stored before survives. *)
Theorem UpdatePullWithResults_replace (P : PullRequest.t)
    (R : list ProjectResult.t) (b : BoltDB) (key : string) (serialized : bytes) :
  pullKey P = inr key →
  outOfDate b key P →
  Marshal (PullStatus.mk P (projectResultToProject <$> R)) = Some serialized →
  (UpdatePullWithResults P R b).2 = inr (PullStatus.mk P (projectResultToProject <$> R)) ∧
  pulls (UpdatePullWithResults P R b).1 = <[key := serialized]> (pulls b).
Proof.
  intros Hkey Hold Hser.
  by rewrite (UpdatePullWithResults_replaced _ _ _ _ _ Hkey Hold Hser).
Qed.


(** *** The merge keeps the keys apart *)

Lemma sameProject_spec res proj :
  sameProject res proj = true ↔ resultKey res = projectKey proj.
Proof.
  unfold sameProject, resultKey, projectKey.
  rewrite !andb_true_iff, !bool_decide_eq_true. split.
  - intros [[-> ->] ->]. done.
  - intros [= -> -> ->]. done.
Qed.

Lemma findExisting_None res (projects : list ProjectStatus.t) i :
  findExisting res projects i = None ↔ resultKey res ∉ projectKey <$> projects.
Proof.
  revert i. induction projects as [|proj rest IH]; intros i; simpl.
  - split; [|done]. intros _. apply not_elem_of_nil.
  - rewrite not_elem_of_cons. destruct (sameProject res proj) eqn:Hsame.
    + apply sameProject_spec in Hsame. split; [done|]. by intros [? _].
    + rewrite IH. split; [|by intros [_ ?]]. intros Hrest. split; [|done].
      intros Heq. apply sameProject_spec in Heq. congruence.
Qed.

Lemma projectKey_setStatus proj v :
  projectKey (ProjectStatus.setStatus proj v) = projectKey proj.
Proof. done. Qed.

Lemma projectKey_alter_setStatus v (i : nat) (projects : list ProjectStatus.t) :
  projectKey <$> alter (λ proj, ProjectStatus.setStatus proj v) i projects
  = projectKey <$> projects.
Proof.
  revert i. induction projects as [|proj rest IH]; intros [|i]; [done..|].
  change (projectKey proj :: (projectKey <$> alter (λ proj, ProjectStatus.setStatus proj v) i rest)
          = projectKey proj :: (projectKey <$> rest)).
  by rewrite IH.
Qed.

Lemma mergeResult_keys (projects : list ProjectStatus.t) res :
  projectKey <$> mergeResult projects res =
    if decide (resultKey res ∈ projectKey <$> projects)
    then projectKey <$> projects
    else ((projectKey <$> projects) ++ [resultKey res])%list.
Proof.
  unfold mergeResult.
  destruct (findExisting res projects 0) as [i|] eqn:Hfind.
  - rewrite projectKey_alter_setStatus. rewrite decide_True; [done|].
    apply dec_stable. intros Hnot. apply (findExisting_None _ _ 0) in Hnot. congruence.
  - apply findExisting_None in Hfind. rewrite decide_False by done.
    by rewrite fmap_app.
Qed.

Lemma mergeResult_NoDup (projects : list ProjectStatus.t) res :
  NoDup (projectKey <$> projects) → NoDup (projectKey <$> mergeResult projects res).
Proof.
  intros Hnodup. rewrite mergeResult_keys. case_decide; [done|].
  apply NoDup_app. split_and!; [done| |apply NoDup_singleton].
  intros k Hk ->%list_elem_of_singleton. done.
Qed.

Lemma foldl_mergeResult_NoDup newResults (projects : list ProjectStatus.t) :
  NoDup (projectKey <$> projects) →
  NoDup (projectKey <$> foldl mergeResult projects newResults).
Proof.
  revert projects. induction newResults as [|res rest IH]; intros projects Hnodup; simpl.
  - done.
  - by apply IH, mergeResult_NoDup.
Qed.

Lemma projectKey_projectResultToProject (newResults : list ProjectResult.t) :
  projectKey <$> (projectResultToProject <$> newResults) = resultKey <$> newResults.
Proof. rewrite <- list_fmap_compose. done. Qed.

(** C3, amended. The status that [UpdatePullWithResults] writes and returns
    has no two projects with the same workspace, directory and name, on the
    replace path when no two of the results share these three, and on the
    merge path when no two projects of the stored status do (whatever the
    results, repeated ones included). *)
Theorem UpdatePullWithResults_unique_projects (pull : PullRequest.t)
    (newResults : list ProjectResult.t) (b : BoltDB) (key : string) :
  pullKey pull = inr key →
  (∀ serialized,
     outOfDate b key pull →
     NoDup (resultKey <$> newResults) →
     Marshal (replaced pull newResults) = Some serialized →
     ∃ s, (UpdatePullWithResults pull newResults b).2 = inr s ∧
          pulls (UpdatePullWithResults pull newResults b).1 !! key = Marshal s ∧
          uniqueProjects s)
  ∧ (∀ v currStatus serialized,
     pulls b !! key = Some v →
     Unmarshal v = Some currStatus →
     PullRequest.HeadCommit (PullStatus.Pull currStatus) = PullRequest.HeadCommit pull →
     uniqueProjects currStatus →
     Marshal (merged currStatus newResults) = Some serialized →
     ∃ s, (UpdatePullWithResults pull newResults b).2 = inr s ∧
          pulls (UpdatePullWithResults pull newResults b).1 !! key = Marshal s ∧
          uniqueProjects s).
Proof.
  intros Hkey. split.
  - intros serialized Hold Hnodup Hser. exists (replaced pull newResults).
    rewrite (UpdatePullWithResults_replaced _ _ _ _ _ Hkey Hold Hser). simpl.
    split_and!; [done|by rewrite lookup_insert_eq|].
    unfold uniqueProjects. simpl. by rewrite projectKey_projectResultToProject.
  - intros v currStatus serialized Hv Hdec Hhead Hnodup Hser.
    exists (merged currStatus newResults).
    rewrite (UpdatePullWithResults_merged _ _ _ _ _ _ _ Hkey Hv Hdec Hhead Hser). simpl.
    split_and!; [done|by rewrite lookup_insert_eq|].
    by apply foldl_mergeResult_NoDup.
Qed.

(** C4. With the status [{a,x,p,S1}] stored at head commit C, updating at the
    same head commit with the results [{a,x,p,S2}; {b,y,q,S3}] of two distinct
    projects stores and returns exactly [{a,x,p,S2}; {b,y,q,S3}]: the first
    is overwritten in place, the second appended. *)
Theorem UpdatePullWithResults_merge_example (pull stored : PullRequest.t)
    (b : BoltDB) (key : string) (v serialized : bytes)
    (a x p b' y q : string) (S1 S2 S3 : Z) :
  pullKey pull = inr key →
  pulls b !! key = Some v →
  Unmarshal v = Some (PullStatus.mk stored [ProjectStatus.mk a x p S1]) →
  PullRequest.HeadCommit stored = PullRequest.HeadCommit pull →
  (a, x, p) ≠ (b', y, q) →
  Marshal (PullStatus.mk stored [ProjectStatus.mk a x p S2; ProjectStatus.mk b' y q S3])
    = Some serialized →
  UpdatePullWithResults pull
      [ProjectResult.mk a x p S2; ProjectResult.mk b' y q S3] b =
    (commit pullsBucketName (<[key := serialized]> (pulls b)) ReadWrite b,
     inr (PullStatus.mk stored
            [ProjectStatus.mk a x p S2; ProjectStatus.mk b' y q S3])).
Proof.
  intros Hkey Hv Hdec Hhead Hne Hser.
  assert (merged (PullStatus.mk stored [ProjectStatus.mk a x p S1])
            [ProjectResult.mk a x p S2; ProjectResult.mk b' y q S3]
          = PullStatus.mk stored
              [ProjectStatus.mk a x p S2; ProjectStatus.mk b' y q S3]) as Hmerged.
  { assert (sameProject (ProjectResult.mk a x p S2) (ProjectStatus.mk a x p S1) = true)
      as Hfirst by (by apply sameProject_spec).
    assert (sameProject (ProjectResult.mk b' y q S3) (ProjectStatus.mk a x p S2) = false)
      as Hsecond.
    { apply not_true_is_false. rewrite sameProject_spec.
      unfold resultKey, projectKey. simpl. congruence. }
    unfold merged, mergeResult. simpl. rewrite Hfirst. simpl.
    unfold ProjectStatus.setStatus. simpl. by rewrite Hsecond. }
  rewrite <- Hmerged in Hser |- *.
  by apply (UpdatePullWithResults_merged _ _ _ _ v).
Qed.

(** C10. On the merge path the pull request inside the status written and
    returned is the one stored before, not the argument; and any other
    argument with the same key and the same head commit, whatever its other
    fields, gives the same store and the same result. *)
Theorem UpdatePullWithResults_merge_keeps_pull (pull : PullRequest.t)
    (newResults : list ProjectResult.t) (b : BoltDB) (key : string)
    (v : bytes) (currStatus : PullStatus.t) :
  pullKey pull = inr key →
  pulls b !! key = Some v →
  Unmarshal v = Some currStatus →
  PullRequest.HeadCommit (PullStatus.Pull currStatus) = PullRequest.HeadCommit pull →
  (∀ serialized,
     Marshal (merged currStatus newResults) = Some serialized →
     ∃ s, (UpdatePullWithResults pull newResults b).2 = inr s ∧
          pulls (UpdatePullWithResults pull newResults b).1 !! key = Marshal s ∧
          PullStatus.Pull s = PullStatus.Pull currStatus)
  ∧ (∀ pull',
     pullKey pull' = inr key →
     PullRequest.HeadCommit pull' = PullRequest.HeadCommit pull →
     UpdatePullWithResults pull' newResults b = UpdatePullWithResults pull newResults b).
Proof.
  intros Hkey Hv Hdec Hhead. split.
  - intros serialized Hser. exists (merged currStatus newResults).
    rewrite (UpdatePullWithResults_merged _ _ _ _ _ _ _ Hkey Hv Hdec Hhead Hser). simpl.
    by rewrite lookup_insert_eq.
  - intros pull' Hkey' Hhead'.
    unfold UpdatePullWithResults, getPullFromBucket. rewrite Hkey, Hkey'.
    tx_unfold. rewrite Hv, Hdec. simpl.
    rewrite !bool_decide_eq_false_2; [done|by intros ?|by rewrite Hhead'; intros ?].
Qed.

Lemma DeleteProjectStatus_absent pull workspace repoRelDir b key :
  pullKey pull = inr key →
  pulls b !! key = None →
  DeleteProjectStatus pull workspace repoRelDir b = (rollback ReadWrite b, None).
Proof.
  intros Hkey Hnone. unfold DeleteProjectStatus, getPullFromBucket.
  rewrite Hkey. tx_unfold. rewrite Hnone. simpl. by destruct b.
Qed.

Lemma DeleteProjectStatus_present pull workspace repoRelDir b key v currStatus serialized :
  pullKey pull = inr key →
  pulls b !! key = Some v →
  Unmarshal v = Some currStatus →
  Marshal (PullStatus.mk (PullStatus.Pull currStatus)
             (pruned workspace repoRelDir (PullStatus.Projects currStatus)))
    = Some serialized →
  DeleteProjectStatus pull workspace repoRelDir b =
    (commit pullsBucketName (<[key := serialized]> (pulls b)) ReadWrite b, None).
Proof.
  intros Hkey Hv Hdec Hser.
  unfold DeleteProjectStatus, getPullFromBucket, writePullToBucket.
  rewrite Hkey. tx_unfold. rewrite Hv, Hdec. simpl.
  unfold pruned, PullStatus.setProjects in *. by rewrite Hser.
Qed.

(** C7. [DeleteProjectStatus] writes back the stored status with exactly the
    projects that do not match both the workspace and the directory, in their
    order, whatever their names; with nothing stored under the key of the
    pull request it returns no error and changes neither bucket. *)
Theorem DeleteProjectStatus_prunes (pull : PullRequest.t)
    (workspace repoRelDir : string) (b : BoltDB) (key : string) :
  pullKey pull = inr key →
  (∀ v currStatus serialized,
     pulls b !! key = Some v →
     Unmarshal v = Some currStatus →
     let kept := pruned workspace repoRelDir (PullStatus.Projects currStatus) in
     Marshal (PullStatus.mk (PullStatus.Pull currStatus) kept) = Some serialized →
     (DeleteProjectStatus pull workspace repoRelDir b).2 = None ∧
     pulls (DeleteProjectStatus pull workspace repoRelDir b).1
       = <[key := serialized]> (pulls b) ∧
     kept `sublist_of` PullStatus.Projects currStatus ∧
     (∀ p, p ∈ kept ↔
           p ∈ PullStatus.Projects currStatus ∧
           ¬ (ProjectStatus.Workspace p = workspace ∧
              ProjectStatus.RepoRelDir p = repoRelDir)))
  ∧ (pulls b !! key = None →
     (DeleteProjectStatus pull workspace repoRelDir b).2 = None ∧
     pulls (DeleteProjectStatus pull workspace repoRelDir b).1 = pulls b ∧
     runLocks (DeleteProjectStatus pull workspace repoRelDir b).1 = runLocks b).
Proof.
  intros Hkey. split.
  - intros v currStatus serialized Hv Hdec kept Hser.
    rewrite (DeleteProjectStatus_present _ _ _ _ _ _ _ _ Hkey Hv Hdec Hser). simpl.
    split_and!; [done|done|apply sublist_filter|].
    intros p. unfold kept, pruned. rewrite list_elem_of_filter. tauto.
  - intros Hnone. by rewrite (DeleteProjectStatus_absent _ _ _ _ _ Hkey Hnone).
Qed.

End PullStatusProps.

Section PullStatusExamples.
Import Sample.
#[local] Existing Instance Wire.JSON_PullStatus.

Lemma pullKey_validation_witness :
  (∃ format args,
     let err := Errorf format args in
     pullKey badHostPull = inl err ∧
     (∀ newResults, UpdatePullWithResults badHostPull newResults onePlanned
                    = (onePlanned, inl err)) ∧
     GetPullStatus badHostPull onePlanned = (onePlanned, inl err) ∧
     DeletePullStatus badHostPull onePlanned = (onePlanned, Some err) ∧
     (∀ workspace repoRelDir,
        DeleteProjectStatus badHostPull workspace repoRelDir onePlanned
        = (onePlanned, Some err)))
  ∧ pullKey pull42 = inr "github.com::org/repo::42".
Proof.
  split.
  - apply (proj1 (pullKey_validation badHostPull onePlanned)).
    left. by exists "git", "hub".
  - apply (proj2 (pullKey_validation pull42 onePlanned));
      intros Hsep%strings_Contains_separator; vm_compute in Hsep; discriminate.
Defined.

Lemma UpdatePullWithResults_replace_witness :
((UpdatePullWithResults pull42 [resP 1; resQ 3] empty).2
   = inr (PullStatus.mk pull42
            [ProjectStatus.mk "default" "dir1" "p" 1;
             ProjectStatus.mk "staging" "dir2" "q" 3]))
∧ ((UpdatePullWithResults movedPull42 [resQ 3] onePlanned).2
   = inr (PullStatus.mk movedPull42 [ProjectStatus.mk "staging" "dir2" "q" 3])).
Proof.
split.
- refine (proj1 (UpdatePullWithResults_replace pull42 [resP 1; resQ 3] empty pullKey42
                   (default "" (Marshal (replaced pull42 [resP 1; resQ 3]))) _ _ _)).
  + vm_compute; reflexivity.
  + left. vm_compute; reflexivity.
  + vm_compute; reflexivity.
- refine (proj1 (UpdatePullWithResults_replace movedPull42 [resQ 3] onePlanned pullKey42
                   (default "" (Marshal (replaced movedPull42 [resQ 3]))) _ _ _)).
  + vm_compute; reflexivity.
  + right. exists (stored onePlanned pullKey42), (replaced pull42 [resP 1]).
    split_and!; [vm_compute; reflexivity..|vm_compute; discriminate].
  + vm_compute; reflexivity.
Defined.

(** C3 as the specification words it fails on both paths: two results for
  one project written to an empty store leave two entries with one key, and
  a later merge at the same head commit keeps them. *)
Lemma UpdatePullWithResults_duplicates :
(∃ s, (UpdatePullWithResults pull42 [resP 1; resP 1] empty).2 = inr s ∧
      pulls (UpdatePullWithResults pull42 [resP 1; resP 1] empty).1 !! pullKey42
        = Marshal s ∧
      ¬ uniqueProjects s)
∧ (∃ s, (UpdatePullWithResults pull42 [resQ 3] twiceP).2 = inr s ∧
      pulls (UpdatePullWithResults pull42 [resQ 3] twiceP).1 !! pullKey42
        = Marshal s ∧
      ¬ uniqueProjects s).
Proof.
split; eexists; (split; [vm_compute; reflexivity|]); (split; [vm_compute; reflexivity|]);
  unfold uniqueProjects; simpl; intros Hnodup;
  apply NoDup_cons in Hnodup as [Hnotin _]; apply Hnotin; left.
Qed.

Lemma UpdatePullWithResults_unique_projects_witness :
(∃ s, (UpdatePullWithResults pull42 [resP 1; resQ 3] empty).2 = inr s ∧
      pulls (UpdatePullWithResults pull42 [resP 1; resQ 3] empty).1 !! pullKey42
        = Marshal s ∧
      uniqueProjects s)
∧ (∃ s, (UpdatePullWithResults pull42 [resQ 3; resP 2; resQ 4] onePlanned).2 = inr s ∧
      pulls (UpdatePullWithResults pull42 [resQ 3; resP 2; resQ 4] onePlanned).1
        !! pullKey42 = Marshal s ∧
      uniqueProjects s).
Proof.
assert (pullKey pull42 = inr pullKey42) as Hkey by (vm_compute; reflexivity).
split.
- apply (proj1 (UpdatePullWithResults_unique_projects pull42 [resP 1; resQ 3] empty
                  pullKey42 Hkey)
           (default "" (Marshal (replaced pull42 [resP 1; resQ 3])))).
  + left. vm_compute; reflexivity.
  + simpl. apply NoDup_cons. split; [|apply NoDup_singleton].
    rewrite list_elem_of_singleton. discriminate.
  + vm_compute; reflexivity.
- apply (proj2 (UpdatePullWithResults_unique_projects pull42 [resQ 3; resP 2; resQ 4]
                  onePlanned pullKey42 Hkey)
           (stored onePlanned pullKey42) (replaced pull42 [resP 1])
           (default "" (Marshal (merged (replaced pull42 [resP 1])
                                   [resQ 3; resP 2; resQ 4])))).
  + vm_compute; reflexivity.
  + vm_compute; reflexivity.
  + reflexivity.
  + unfold uniqueProjects. simpl. apply NoDup_singleton.
  + vm_compute; reflexivity.
Defined.

Lemma UpdatePullWithResults_merge_example_witness :
(UpdatePullWithResults pull42 [resP 2; resQ 3] onePlanned).2
= inr (PullStatus.mk pull42
         [ProjectStatus.mk "default" "dir1" "p" 2;
          ProjectStatus.mk "staging" "dir2" "q" 3]).
Proof.
assert (pullKey pull42 = inr pullKey42) as Hkey by (vm_compute; reflexivity).
assert (pulls onePlanned !! pullKey42 = Some (stored onePlanned pullKey42)) as Hv
  by (vm_compute; reflexivity).
assert (Unmarshal (stored onePlanned pullKey42)
        = Some (PullStatus.mk pull42 [ProjectStatus.mk "default" "dir1" "p" 1])) as Hdec
  by (vm_compute; reflexivity).
assert (("default", "dir1", "p") ≠ ("staging", "dir2", "q")) as Hne by discriminate.
assert (Marshal (PullStatus.mk pull42
                   [ProjectStatus.mk "default" "dir1" "p" 2;
                    ProjectStatus.mk "staging" "dir2" "q" 3])
        = Some (default "" (Marshal (merged (replaced pull42 [resP 1]) [resP 2; resQ 3]))))
  as Hser by (vm_compute; reflexivity).
exact (f_equal snd
         (UpdatePullWithResults_merge_example pull42 pull42 onePlanned pullKey42 _ _
            "default" "dir1" "p" "staging" "dir2" "q" 1 2 3
            Hkey Hv Hdec eq_refl Hne Hser)).
Defined.

Lemma UpdatePullWithResults_merge_keeps_pull_witness :
(∃ s, (UpdatePullWithResults renamedPull42 [resQ 3] onePlanned).2 = inr s ∧
      pulls (UpdatePullWithResults renamedPull42 [resQ 3] onePlanned).1 !! pullKey42
        = Marshal s ∧
      PullStatus.Pull s = pull42)
∧ UpdatePullWithResults pull42 [resQ 3] onePlanned
  = UpdatePullWithResults renamedPull42 [resQ 3] onePlanned.
Proof.
assert (pullKey renamedPull42 = inr pullKey42) as Hkey by (vm_compute; reflexivity).
assert (pulls onePlanned !! pullKey42 = Some (stored onePlanned pullKey42)) as Hv
  by (vm_compute; reflexivity).
assert (Unmarshal (stored onePlanned pullKey42) = Some (replaced pull42 [resP 1])) as Hdec
  by (vm_compute; reflexivity).
pose proof (UpdatePullWithResults_merge_keeps_pull renamedPull42 [resQ 3] onePlanned
              pullKey42 _ _ Hkey Hv Hdec eq_refl) as [Hkeeps Hignored].
split.
- apply (Hkeeps (default "" (Marshal (merged (replaced pull42 [resP 1]) [resQ 3])))).
  vm_compute; reflexivity.
- apply Hignored; vm_compute; reflexivity.
Defined.

Lemma DeleteProjectStatus_prunes_witness :
((DeleteProjectStatus pull42 "default" "dir1" mixed).2 = None ∧
 (GetPullStatus pull42 (DeleteProjectStatus pull42 "default" "dir1" mixed).1).2
   = inr (Some (PullStatus.mk pull42 [ProjectStatus.mk "staging" "dir2" "q" 3])))
∧ ((DeleteProjectStatus pull42 "default" "dir1" empty).2 = None ∧
   pulls (DeleteProjectStatus pull42 "default" "dir1" empty).1 = pulls empty ∧
   runLocks (DeleteProjectStatus pull42 "default" "dir1" empty).1 = runLocks empty).
Proof.
assert (pullKey pull42 = inr pullKey42) as Hkey by (vm_compute; reflexivity).
pose proof (DeleteProjectStatus_prunes pull42 "default" "dir1" mixed pullKey42 Hkey)
  as [Hpresent _].
pose proof (DeleteProjectStatus_prunes pull42 "default" "dir1" empty pullKey42 Hkey)
  as [_ Habsent].
split.
- destruct (Hpresent (stored mixed pullKey42)
              (replaced pull42 [resP 1; resOther 2; resQ 3])
              (default "" (Marshal (PullStatus.mk pull42
                                      [ProjectStatus.mk "staging" "dir2" "q" 3]))))
    as (Herr & Hpulls & _); [vm_compute; reflexivity..|].
  split; [exact Herr|].
  unfold GetPullStatus, getPullFromBucket. rewrite Hkey. tx_unfold.
  rewrite Hpulls, lookup_insert_eq. vm_compute; reflexivity.
- apply Habsent. vm_compute; reflexivity.
Defined.

End PullStatusExamples.

Section UnlockByPullExample.
Import Sample.
#[local] Existing Instance Wire.JSON_ProjectLock.

Lemma wellKeyed_threeLocks : wellKeyed (runLocks threeLocks).
Proof.
  unfold threeLocks, held.
  eapply (TryLock_wellKeyed lockC); [|vm_compute; reflexivity..|done].
  eapply (TryLock_wellKeyed lockOther); [|vm_compute; reflexivity..|done].
  eapply (TryLock_wellKeyed lockA); [|vm_compute; reflexivity..|done].
  intros k v Hk. unfold empty in Hk. simpl in Hk. by rewrite lookup_empty in Hk.
Qed.

Lemma UnlockByPull_releases_other_repository_witness :
  (UnlockByPull "org/repo" 42 threeLocks).2.2 = None ∧
  lockOther ∈ (UnlockByPull "org/repo" 42 threeLocks).2.1 ∧
  runLocks (UnlockByPull "org/repo" 42 threeLocks).1
    !! lockKey (Project.mk "org/repo-other" "infra") "default" = None.
Proof.
  apply (UnlockByPull_releases_other_repository "org/repo" "-other" 42 threeLocks
           lockOther (default "" (Marshal lockOther)));
    [exact wellKeyed_threeLocks|discriminate|vm_compute; reflexivity..].
Defined.

(** The whole run on the three locks: the scan meets the lock of
    org/repo-other first, both locks held by a pull request 42 are returned
    and deleted, the lock held by pull request 43 stays. *)
Example UnlockByPull_three_locks :
  runLocks threeLocks !! "org/repo-other/infra/default" = Marshal lockOther ∧
  (UnlockByPull "org/repo" 42 threeLocks).2 = ([lockOther; lockA_stored], None) ∧
  runLocks (UnlockByPull "org/repo" 42 threeLocks).1
    !! "org/repo-other/infra/default" = None ∧
  runLocks (UnlockByPull "org/repo" 42 threeLocks).1
    !! "org/repo/infra/default" = None ∧
  runLocks (UnlockByPull "org/repo" 42 threeLocks).1
    !! "org/repo/net/default" = Marshal lockC.
Proof. vm_compute. done. Qed.

End UnlockByPullExample.

(** * Further properties *)

Section LockStoreMore.
Context `{!JSON ProjectLock.t}.


(** *** Errors and undecodable values *)

Lemma TryLock_undecodable newLock b v :
  runLocks b !! lockKey (ProjectLock.Project newLock) (ProjectLock.Workspace newLock) = Some v →
  Unmarshal (A:=ProjectLock.t) v = None →
  TryLock newLock b =
    (rollback ReadWrite b,
     inl (Wrap (Wrap JSONError "failed to deserialize current lock") "DB transaction failed")).
Proof. intros Hv Hdec. unfold TryLock. tx_unfold. by rewrite Hv, Hdec. Qed.

Lemma Unlock_undecodable p workspace b v :
  runLocks b !! lockKey p workspace = Some v →
  Unmarshal (A:=ProjectLock.t) v = None →
  Unlock p workspace b =
    (rollback ReadWrite b,
     inl (Wrap (Wrap JSONError "failed to deserialize lock") "DB transaction failed")).
Proof. intros Hv Hdec. unfold Unlock. tx_unfold. by rewrite Hv, Hdec. Qed.

Lemma GetLock_undecodable p workspace b v :
  runLocks b !! lockKey p workspace = Some v →
  Unmarshal (A:=ProjectLock.t) v = None →
  GetLock p workspace b =
    (rollback ReadOnly b, inl (Wrap JSONError "deserializing lock at key %q")).
Proof. intros Hv Hdec. unfold GetLock. tx_unfold. by rewrite Hv, Hdec. Qed.

Lemma GetLock_absent p workspace b :
  runLocks b !! lockKey p workspace = None →
  GetLock p workspace b = (rollback ReadOnly b, inr None).
Proof. intros Hv. unfold GetLock. tx_unfold. by rewrite Hv. Qed.

(** X1. A value that does not decode blocks its slot: [TryLock], [Unlock] and
    [GetLock] on its project and workspace all return an error, and neither
    [TryLock] nor [Unlock] changes the bucket, so that the value stays. *)
Theorem undecodable_lock_blocks_slot (newLock : ProjectLock.t) (b : BoltDB) (v : bytes) :
  let p := ProjectLock.Project newLock in
  let workspace := ProjectLock.Workspace newLock in
  runLocks b !! lockKey p workspace = Some v →
  Unmarshal (A:=ProjectLock.t) v = None →
  (∃ e, (TryLock newLock b).2 = inl e) ∧
  (∃ e, (Unlock p workspace b).2 = inl e) ∧
  (∃ e, (GetLock p workspace b).2 = inl e) ∧
  runLocks (TryLock newLock b).1 = runLocks b ∧
  runLocks (Unlock p workspace b).1 = runLocks b.
Proof.
  intros p workspace Hv Hdec.
  rewrite (TryLock_undecodable _ _ _ Hv Hdec), (Unlock_undecodable _ _ _ _ Hv Hdec),
    (GetLock_undecodable _ _ _ _ Hv Hdec). simpl. eauto 10.
Qed.

Lemma TryLock_pulls newLock b : pulls (TryLock newLock b).1 = pulls b.
Proof.
  unfold TryLock. tx_unfold.
  destruct (runLocks b !! _) as [v|]; simpl; [|done].
  by destruct (Unmarshal v).
Qed.

Lemma Unlock_pulls p workspace b : pulls (Unlock p workspace b).1 = pulls b.
Proof.
  unfold Unlock. tx_unfold.
  destruct (runLocks b !! _) as [v|]; simpl; [|done].
  by destruct (Unmarshal v).
Qed.

Lemma TryLock_other newLock b k :
  k ≠ lockKey (ProjectLock.Project newLock) (ProjectLock.Workspace newLock) →
  runLocks (TryLock newLock b).1 !! k = runLocks b !! k.
Proof.
  intros Hk. unfold TryLock. tx_unfold.
  destruct (runLocks b !! _) as [v|]; simpl.
  - by destruct (Unmarshal v).
  - by rewrite lookup_insert_ne.
Qed.

Lemma unlockAll_pulls (locks : list ProjectLock.t) b :
  pulls (unlockAll locks b).1 = pulls b.
Proof.
  revert b. induction locks as [|lock rest IH]; intros b; simpl; [done|].
  pose proof (Unlock_pulls (ProjectLock.Project lock) (ProjectLock.Workspace lock) b) as Hstep.
  destruct (Unlock _ _ b) as [b' [e|found]]; simpl in *; [done|].
  by rewrite IH.
Qed.

Lemma UnlockByPull_pulls repoFullName pullNum b :
  pulls (UnlockByPull repoFullName pullNum b).1 = pulls b.
Proof.
  unfold UnlockByPull, View. simpl.
  destruct (scan _ _ _ _) as [locks [err|]]; simpl; [done|].
  pose proof (unlockAll_pulls locks (rollback ReadOnly b)) as Hpulls.
  by destruct (unlockAll _ _).
Qed.

(** X2. No operation of the lock store changes the bucket of pull statuses;
    [TryLock] leaves every key but its own as it was, and [GetLock] and [List]
    leave the locks as they were. *)
Theorem lock_store_frame (b : BoltDB) :
  (∀ newLock,
     pulls (TryLock newLock b).1 = pulls b ∧
     ∀ k, k ≠ lockKey (ProjectLock.Project newLock) (ProjectLock.Workspace newLock) →
          runLocks (TryLock newLock b).1 !! k = runLocks b !! k)
  ∧ (∀ p workspace, pulls (Unlock p workspace b).1 = pulls b)
  ∧ (∀ repoFullName pullNum, pulls (UnlockByPull repoFullName pullNum b).1 = pulls b)
  ∧ (∀ p workspace,
       pulls (GetLock p workspace b).1 = pulls b ∧
       runLocks (GetLock p workspace b).1 = runLocks b)
  ∧ pulls (List b).1 = pulls b ∧ runLocks (List b).1 = runLocks b.
Proof.
  split_and!.
  - intros newLock. split; [apply TryLock_pulls|]. intros k Hk. by apply TryLock_other.
  - intros. apply Unlock_pulls.
  - intros. apply UnlockByPull_pulls.
  - intros p workspace. unfold GetLock. tx_unfold.
    destruct (runLocks b !! _) as [v|]; simpl; [|done]. by destruct (Unmarshal v).
  - done.
  - done.
Qed.

(** *** Sequences of operations *)

(** X3. Two acquisitions in a row on one project and workspace: the first
    takes the free slot, the second is refused, is handed the first lock as it
    reads back from the store, and changes nothing. *)
Theorem TryLock_second_refused (L1 L2 : ProjectLock.t) (b : BoltDB)
    (serialized : bytes) (decoded : ProjectLock.t) :
  ProjectLock.Project L2 = ProjectLock.Project L1 →
  ProjectLock.Workspace L2 = ProjectLock.Workspace L1 →
  runLocks b !! lockKey (ProjectLock.Project L1) (ProjectLock.Workspace L1) = None →
  Marshal L1 = Some serialized →
  Unmarshal serialized = Some decoded →
  (TryLock L1 b).2 = inr (true, L1) ∧
  (TryLock L2 (TryLock L1 b).1).2 = inr (false, decoded) ∧
  runLocks (TryLock L2 (TryLock L1 b).1).1 = runLocks (TryLock L1 b).1.
Proof.
  intros HP HW Hfree Hser Hdec. rewrite (TryLock_free _ _ Hfree), Hser. simpl.
  split; [done|].
  erewrite (TryLock_held L2); [done| |exact Hdec].
  rewrite HP, HW. simpl. apply lookup_insert_eq.
Qed.

(** X4. [TryLock] drops the error of [json.Marshal]: on a free slot with a
    lock that cannot be serialised it still returns true with the lock and no
    error, and what it has put at the key is the empty value. *)
Theorem TryLock_drops_Marshal_error (newLock : ProjectLock.t) (b : BoltDB) :
  let key := lockKey (ProjectLock.Project newLock) (ProjectLock.Workspace newLock) in
  runLocks b !! key = None →
  Marshal newLock = None →
  (TryLock newLock b).2 = inr (true, newLock) ∧
  runLocks (TryLock newLock b).1 = <[key := ""]> (runLocks b).
Proof.
  intros key Hfree Hser. rewrite (TryLock_free _ _ Hfree). fold key. by rewrite Hser.
Qed.

(** X5. After [Unlock] of a slot that is free or holds a lock that decodes,
    the slot is free: [GetLock] returns nil, a second [Unlock] returns nil and
    changes nothing, and [TryLock] of any lock for this project and workspace
    is granted. *)
Theorem Unlock_frees_slot (p : Project.t) (workspace : string) (b : BoltDB) :
  (∀ v, runLocks b !! lockKey p workspace = Some v →
        is_Some (Unmarshal (A:=ProjectLock.t) v)) →
  let b' := (Unlock p workspace b).1 in
  (GetLock p workspace b').2 = inr None ∧
  (Unlock p workspace b').2 = inr None ∧
  runLocks (Unlock p workspace b').1 = runLocks b' ∧
  ∀ L, ProjectLock.Project L = p → ProjectLock.Workspace L = workspace →
       (TryLock L b').2 = inr (true, L).
Proof.
  intros Hdecodes b'.
  assert (runLocks b' !! lockKey p workspace = None) as Hfree.
  { unfold b'. destruct (runLocks b !! lockKey p workspace) as [v|] eqn:Hv.
    - destruct (Hdecodes v eq_refl) as [lock Hdec].
      rewrite (Unlock_present _ _ _ _ _ Hv Hdec). apply lookup_delete_eq.
    - by rewrite (Unlock_absent _ _ _ Hv). }
  rewrite (GetLock_absent _ _ _ Hfree), (Unlock_absent _ _ _ Hfree). simpl.
  split_and!; [done..|]. intros L <- <-. by rewrite (TryLock_free _ _ Hfree).
Qed.

(** *** Keys that collide *)

Lemma append_ne_self (s t : string) : t ≠ "" → s ≠ s ++ t.
Proof.
  intros Ht. induction s as [|c s IH].
  - intros Heq. apply Ht. exact (eq_sym Heq).
  - rewrite append_cons_l. intros [= Heq]. by apply IH.
Qed.

Lemma lockKey_alias (repo path rest workspace : string) :
  lockKey (Project.mk repo (path ++ "/" ++ rest)) workspace =
  lockKey (Project.mk (repo ++ "/" ++ path) rest) workspace.
Proof. unfold lockKey. simpl. by rewrite !append_assoc. Qed.

(** X6. [lockKey] does not tell apart a path segment from a segment of the
    repository name: the projects (repo, path/rest) and (repo/path, rest) are
    different and have the same key, so that a lock on the first makes
    [TryLock] refuse a lock on the second. *)
Theorem lockKey_alias_blocks (repo path rest workspace : string)
    (pull1 pull2 : PullRequest.t) (t1 t2 : Time.t) (b : BoltDB)
    (serialized : bytes) (decoded : ProjectLock.t) :
  let L1 := ProjectLock.mk (Project.mk repo (path ++ "/" ++ rest)) pull1 workspace t1 in
  let L2 := ProjectLock.mk (Project.mk (repo ++ "/" ++ path) rest) pull2 workspace t2 in
  runLocks b !! lockKey (ProjectLock.Project L1) workspace = None →
  Marshal L1 = Some serialized →
  Unmarshal serialized = Some decoded →
  ProjectLock.Project L1 ≠ ProjectLock.Project L2 ∧
  (TryLock L2 (TryLock L1 b).1).2 = inr (false, decoded).
Proof.
  intros L1 L2 Hfree Hser Hdec. split.
  - simpl. intros [= Hrepo _]. by apply (append_ne_self repo ("/" ++ path)) in Hrepo.
  - rewrite (TryLock_free L1 b Hfree), Hser. simpl.
    erewrite (TryLock_held L2); [done| |exact Hdec].
    simpl. rewrite <- lockKey_alias. apply lookup_insert_eq.
Qed.
(** *** [List] *)

Lemma deserialize_decoded (c : list (string * bytes)) (decoded acc : list ProjectLock.t) :
  Forall2 (λ kv lock, Unmarshal kv.2 = Some lock) c decoded →
  deserialize c.*2 acc = ((acc ++ decoded)%list, None).
Proof.
  intros Hall. revert acc.
  induction Hall as [|[k v] lock c decoded Hdec Hall IH]; intros acc; simpl.
  - by rewrite app_nil_r.
  - simpl in Hdec. rewrite Hdec, IH. by rewrite <- app_assoc.
Qed.

Lemma wellKeyed_decoded (c : list (string * bytes)) :
  (∀ kv, kv ∈ c → ∃ lock, Unmarshal kv.2 = Some lock ∧
     lockKey (ProjectLock.Project lock) (ProjectLock.Workspace lock) = kv.1) →
  ∃ decoded,
    Forall2 (λ kv lock, Unmarshal kv.2 = Some lock ∧
       lockKey (ProjectLock.Project lock) (ProjectLock.Workspace lock) = kv.1) c decoded.
Proof.
  induction c as [|kv c IH]; intros Hall.
  - exists []. constructor.
  - destruct (Hall kv) as (lock & Hlock); [by left|].
    destruct IH as [decoded Hdecoded]; [intros kv' Hin; apply Hall; by right|].
    exists (lock :: decoded). by constructor.
Qed.

Lemma decoded_sorted (c : list (string * bytes)) (locks : list ProjectLock.t) :
  Forall2 (λ kv lock, Unmarshal kv.2 = Some lock ∧
     lockKey (ProjectLock.Project lock) (ProjectLock.Workspace lock) = kv.1) c locks →
  StronglySorted (λ x y : string * bytes, Is_true (String.leb x.1 y.1)) c →
  StronglySorted
    (λ x y, Is_true (String.leb
       (lockKey (ProjectLock.Project x) (ProjectLock.Workspace x))
       (lockKey (ProjectLock.Project y) (ProjectLock.Workspace y)))) locks.
Proof.
  induction 1 as [|kv lock c locks [_ Hkey] Hlocks IH]; intros Hsorted.
  - constructor.
  - apply StronglySorted_inv in Hsorted as [Hsorted Hall].
    constructor; [by apply IH|].
    rewrite Forall_forall. intros lock' Hin.
    apply list_elem_of_lookup in Hin as [i Hi].
    destruct (Forall2_lookup_r _ _ _ _ _ Hlocks Hi) as (kv' & Hkv' & _ & Hkey').
    rewrite Forall_forall in Hall. rewrite Hkey, Hkey'. apply Hall.
    by eapply list_elem_of_lookup_2.
Qed.

(** X7. On a well-keyed bucket [List] returns no error, as many locks as the
    bucket has entries, exactly the locks the stored values decode to, in the
    order of their keys. *)
Theorem List_all_in_key_order (b : BoltDB) :
  wellKeyed (runLocks b) →
  ∃ locks,
    (List b).2 = (locks, None) ∧
    length locks = size (runLocks b) ∧
    (∀ lock, lock ∈ locks ↔
       ∃ k v, runLocks b !! k = Some v ∧ Unmarshal v = Some lock) ∧
    StronglySorted
      (λ x y, Is_true (String.leb
         (lockKey (ProjectLock.Project x) (ProjectLock.Workspace x))
         (lockKey (ProjectLock.Project y) (ProjectLock.Workspace y)))) locks.
Proof.
  intros Hwell.
  destruct (wellKeyed_decoded (Cursor (runLocks b))) as [locks Hlocks].
  { intros [k v] Hin. apply Cursor_elem_of in Hin. by apply Hwell. }
  exists locks. unfold List, View. simpl.
  assert (Forall2 (λ kv lock, Unmarshal kv.2 = Some lock) (Cursor (runLocks b)) locks)
    as Hdecoded by (eapply Forall2_impl; [exact Hlocks|]; by intros ?? [? _]).
  rewrite (deserialize_decoded _ locks [] Hdecoded). simpl.
  split_and!; [done| | |].
  - rewrite <- (Forall2_length _ _ _ Hlocks). unfold Cursor.
    by rewrite merge_sort_Permutation, length_map_to_list.
  - intros lock. split.
    + intros Hin. apply list_elem_of_lookup in Hin as [i Hi].
      destruct (Forall2_lookup_r _ _ _ _ _ Hdecoded Hi) as ([k v] & Hkv & Hdec).
      exists k, v. split; [|exact Hdec]. apply Cursor_elem_of. by eapply list_elem_of_lookup_2.
    + intros (k & v & Hv & Hdec). apply Cursor_elem_of, list_elem_of_lookup in Hv as [i Hi].
      destruct (Forall2_lookup_l _ _ _ _ _ Hdecoded Hi) as (lock' & Hlock' & Hdec').
      simpl in Hdec'. assert (lock' = lock) as -> by congruence.
      by eapply list_elem_of_lookup_2.
  - eapply decoded_sorted; [exact Hlocks|apply Cursor_sorted].
Qed.

Lemma deserialize_undecodable (vs : list bytes) (acc : list ProjectLock.t) (v : bytes) :
  v ∈ vs → Unmarshal (A:=ProjectLock.t) v = None →
  ∃ locks e,
    deserialize vs acc = ((acc ++ locks)%list, Some e) ∧
    length locks < length vs ∧
    ∀ lock, lock ∈ locks → ∃ v', v' ∈ vs ∧ Unmarshal v' = Some lock.
Proof.
  intros Hin Hbad. revert acc.
  induction vs as [|v0 vs IH]; intros acc; [by apply elem_of_nil in Hin|]. simpl.
  destruct (Unmarshal v0) as [lock0|] eqn:Hdec0.
  - apply elem_of_cons in Hin as [->|Hin]; [congruence|].
    destruct (IH Hin (acc ++ [lock0])%list) as (locks & e & Hres & Hlen & Hfrom).
    exists (lock0 :: locks), e. rewrite Hres, <- app_assoc. simpl.
    split_and!; [done|lia|].
    intros lock [->|Hlock]%elem_of_cons.
    + exists v0. split; [by left|done].
    + destruct (Hfrom lock Hlock) as (v' & Hv' & Hdec'). exists v'. split; [by right|done].
  - exists [], (Wrap JSONError "failed to deserialize lock at key %q").
    rewrite app_nil_r. simpl. split_and!; [done|lia|].
    intros lock Hlock. by apply elem_of_nil in Hlock.
Qed.

(** X8. One stored value that does not decode makes [List] return an error;
    the list it returns with it is short of at least that entry and holds
    only locks decoded from stored values. *)
Theorem List_undecodable (b : BoltDB) (k : string) (v : bytes) :
  runLocks b !! k = Some v →
  Unmarshal (A:=ProjectLock.t) v = None →
  ∃ locks e,
    (List b).2 = (locks, Some e) ∧
    length locks < size (runLocks b) ∧
    ∀ lock, lock ∈ locks →
      ∃ k' v', runLocks b !! k' = Some v' ∧ Unmarshal v' = Some lock.
Proof.
  intros Hv Hbad. unfold List, View. simpl.
  destruct (deserialize_undecodable (Cursor (runLocks b)).*2 [] v)
    as (locks & e & Hres & Hlen & Hfrom); [|done|].
  { apply list_elem_of_fmap. exists (k, v). split; [done|]. by apply Cursor_elem_of. }
  exists locks, e. rewrite Hres. split_and!; [done| |].
  - rewrite length_fmap in Hlen. unfold Cursor in Hlen.
    by rewrite merge_sort_Permutation, length_map_to_list in Hlen.
  - intros lock Hlock. destruct (Hfrom lock Hlock) as (v' & Hv' & Hdec').
    apply list_elem_of_fmap in Hv' as ([k' v''] & -> & Hin).
    exists k', v''. split; [by apply Cursor_elem_of|done].
Qed.

(** *** [UnlockByPull] on a well-keyed bucket *)

Lemma unlockAll_keeps_wellKeyed (locks : list ProjectLock.t) b :
  wellKeyed (runLocks b) → wellKeyed (runLocks (unlockAll locks b).1).
Proof.
  revert b. induction locks as [|lock rest IH]; intros b Hwell; simpl; [done|].
  destruct (Unlock_wellKeyed (ProjectLock.Project lock) (ProjectLock.Workspace lock)
              b Hwell) as (found & Hres & Hbucket).
  destruct (Unlock _ _ b) as [b' res]. simpl in *. subst res.
  apply IH. rewrite Hbucket. by apply wellKeyed_delete.
Qed.

Lemma Unlock_txlog p workspace b :
  txlog (Unlock p workspace b).1 = (txlog b ++ [ReadWrite])%list.
Proof.
  unfold Unlock. tx_unfold.
  destruct (runLocks b !! _) as [v|]; simpl; [|done]. by destruct (Unmarshal v).
Qed.

Lemma unlockAll_txlog (locks : list ProjectLock.t) b :
  wellKeyed (runLocks b) →
  txlog (unlockAll locks b).1 = (txlog b ++ replicate (length locks) ReadWrite)%list.
Proof.
  revert b. induction locks as [|lock rest IH]; intros b Hwell; simpl.
  - by rewrite app_nil_r.
  - destruct (Unlock_wellKeyed (ProjectLock.Project lock) (ProjectLock.Workspace lock)
                b Hwell) as (found & Hres & Hbucket).
    pose proof (Unlock_txlog (ProjectLock.Project lock) (ProjectLock.Workspace lock) b)
      as Hlog.
    destruct (Unlock _ _ b) as [b' res]. simpl in *. subst res.
    rewrite IH, Hlog, <- app_assoc; [done|].
    rewrite Hbucket. by apply wellKeyed_delete.
Qed.

(** The run of [UnlockByPull] on a well-keyed bucket: the scan ends without
    error, and so does every [Unlock]. *)
Lemma UnlockByPull_wellKeyed_run repoFullName pullNum b :
  wellKeyed (runLocks b) →
  ∃ locks,
    scan repoFullName pullNum (Seek repoFullName (Cursor (runLocks b))) [] = (locks, None) ∧
    UnlockByPull repoFullName pullNum b =
      ((unlockAll locks (rollback ReadOnly b)).1, (locks, None)).
Proof.
  intros Hwell. unfold UnlockByPull, View. simpl.
  destruct (Seek_sorted repoFullName _ (Cursor_sorted (runLocks b))) as [Hsorted Hge].
  destruct (scan_complete repoFullName pullNum _ [] Hsorted Hge) as [Herr _].
  { intros [k' v'] Hin. apply Seek_subseteq, Cursor_elem_of in Hin.
    destruct (Hwell _ _ Hin) as (lock' & Hdec' & _). by exists lock'. }
  destruct (scan repoFullName pullNum (Seek repoFullName (Cursor (runLocks b))) [])
    as [locks err]. simpl in *. subst err. exists locks. split; [done|].
  destruct (unlockAll_wellKeyed locks (rollback ReadOnly b) Hwell) as [Herr _].
  destruct (unlockAll locks (rollback ReadOnly b)) as [b2 err]. simpl in *. by subst err.
Qed.

Lemma UnlockByPull_found repoFullName pullNum b lock :
  lock ∈ (UnlockByPull repoFullName pullNum b).2.1 →
  ∃ k v, runLocks b !! k = Some v ∧ Unmarshal v = Some lock ∧
         bytes_HasPrefix k repoFullName = true ∧
         PullRequest.Num (ProjectLock.Pull lock) = pullNum.
Proof.
  unfold UnlockByPull, View. simpl. intros Hin.
  assert (lock ∈ (scan repoFullName pullNum
                    (Seek repoFullName (Cursor (runLocks b))) []).1) as Hscan.
  { destruct (scan _ _ _ _) as [locks [err|]]; simpl in *; [done|].
    by destruct (unlockAll _ _). }
  apply scan_found in Hscan as [Hnil|(k & v & Hkv & Hprefix & Hdec & Hnum)];
    [by apply elem_of_nil in Hnil|].
  exists k, v. split_and!; [|done..]. by apply Cursor_elem_of, (Seek_subseteq repoFullName).
Qed.

(** X9. On a well-keyed bucket [UnlockByPull] returns no error, returns
    exactly the locks whose key starts with [repoFullName] and whose pull
    request number is [pullNum], deletes exactly their entries, leaves every
    other entry as it was and adds none. *)
Theorem UnlockByPull_exact (repoFullName : string) (pullNum : Z) (b : BoltDB) :
  wellKeyed (runLocks b) →
  let matches (k : string) (lock : ProjectLock.t) :=
    bytes_HasPrefix k repoFullName = true ∧
    PullRequest.Num (ProjectLock.Pull lock) = pullNum in
  let after := runLocks (UnlockByPull repoFullName pullNum b).1 in
  (UnlockByPull repoFullName pullNum b).2.2 = None ∧
  (∀ lock, lock ∈ (UnlockByPull repoFullName pullNum b).2.1 ↔
     ∃ k v, runLocks b !! k = Some v ∧ Unmarshal v = Some lock ∧ matches k lock) ∧
  (∀ k v lock, runLocks b !! k = Some v → Unmarshal v = Some lock →
     (matches k lock → after !! k = None) ∧
     (¬ matches k lock → after !! k = Some v)) ∧
  (∀ k, runLocks b !! k = None → after !! k = None).
Proof.
  intros Hwell matches after. split_and!.
  - destruct (UnlockByPull_wellKeyed_run repoFullName pullNum b Hwell) as (locks & _ & ->).
    done.
  - intros lock. split; [apply UnlockByPull_found|].
    intros (k & v & Hv & Hdec & Hprefix & Hnum).
    by destruct (UnlockByPull_releases repoFullName pullNum b k v lock) as (_ & ? & _).
  - intros k v lock Hv Hdec. split.
    + intros [Hprefix Hnum].
      by destruct (UnlockByPull_releases repoFullName pullNum b k v lock) as (_ & _ & ?).
    + intros Hnot. apply (UnlockByPull_keeps _ _ _ _ _ lock); [done..|].
      destruct (bytes_HasPrefix k repoFullName) eqn:Hprefix; [|by left].
      right. intros Hnum. by apply Hnot.
  - intros k Hk. unfold after.
    destruct (UnlockByPull_wellKeyed_run repoFullName pullNum b Hwell) as (locks & _ & ->).
    simpl. destruct (unlockAll_wellKeyed locks (rollback ReadOnly b) Hwell) as [_ Hgone].
    apply Hgone. by left.
Qed.

Lemma scan_undecodable repoFullName pullNum (c : list (string * bytes)) acc k v :
  StronglySorted (λ x y : string * bytes, Is_true (String.leb x.1 y.1)) c →
  (∀ kv, kv ∈ c → String.leb repoFullName kv.1 = true) →
  (k, v) ∈ c → bytes_HasPrefix k repoFullName = true →
  Unmarshal (A:=ProjectLock.t) v = None →
  is_Some (scan repoFullName pullNum c acc).2.
Proof.
  intros Hsorted. revert acc.
  induction Hsorted as [|[k0 v0] rest Hsorted IH Hall]; intros acc Hge Hin Hprefix Hbad.
  - by apply elem_of_nil in Hin.
  - simpl. destruct (bytes_HasPrefix k0 repoFullName) eqn:Hprefix0.
    + apply elem_of_cons in Hin as [[= <- <-]|Hin].
      * rewrite Hbad. by eexists.
      * assert (∀ kv, kv ∈ rest → String.leb repoFullName kv.1 = true) as Hge'
          by (intros kv Hkv; apply Hge; by right).
        destruct (Unmarshal v0); [|by eexists].
        case_bool_decide; by apply IH.
    + exfalso. apply elem_of_cons in Hin as [[= <- <-]|Hin]; [congruence|].
      rewrite Forall_forall in Hall. apply Hall, Is_true_true in Hin. simpl in Hin.
      unfold bytes_HasPrefix in *.
      rewrite (prefix_between repoFullName k0 k) in Hprefix0; [done| |done..].
      by apply (Hge (k0, v0)); left.
Qed.

(** X10. A stored value that does not decode, under a key that starts with
    [repoFullName], makes [UnlockByPull] return an error without releasing
    anything: the bucket is as it was. *)
Theorem UnlockByPull_undecodable (repoFullName : string) (pullNum : Z) (b : BoltDB)
    (k : string) (v : bytes) :
  runLocks b !! k = Some v →
  bytes_HasPrefix k repoFullName = true →
  Unmarshal (A:=ProjectLock.t) v = None →
  is_Some (UnlockByPull repoFullName pullNum b).2.2 ∧
  runLocks (UnlockByPull repoFullName pullNum b).1 = runLocks b.
Proof.
  intros Hv Hprefix Hbad. unfold UnlockByPull, View. simpl.
  destruct (Seek_sorted repoFullName _ (Cursor_sorted (runLocks b))) as [Hsorted Hge].
  destruct (scan_undecodable repoFullName pullNum _ [] k v Hsorted Hge) as [e He];
    [|done..|].
  { apply Seek_keeps; [by apply Cursor_elem_of|]. by apply prefix_leb. }
  destruct (scan _ _ _ _) as [locks err]. simpl in He. subst err. simpl. eauto.
Qed.

(** X11. [UnlockByPull] run a second time with the same arguments on a
    well-keyed bucket finds nothing: it returns the empty list and no error
    and changes nothing. *)
Theorem UnlockByPull_twice (repoFullName : string) (pullNum : Z) (b : BoltDB) :
  wellKeyed (runLocks b) →
  let b' := (UnlockByPull repoFullName pullNum b).1 in
  (UnlockByPull repoFullName pullNum b').2 = ([], None) ∧
  runLocks (UnlockByPull repoFullName pullNum b').1 = runLocks b'.
Proof.
  intros Hwell b'.
  assert (wellKeyed (runLocks b')) as Hwell'.
  { unfold b'. destruct (UnlockByPull_wellKeyed_run repoFullName pullNum b Hwell)
      as (locks & _ & ->). simpl. by apply unlockAll_keeps_wellKeyed. }
  destruct (UnlockByPull_wellKeyed_run repoFullName pullNum b' Hwell')
    as (locks' & _ & Hrun).
  assert (locks' = []) as ->.
  { destruct locks' as [|lock rest]; [done|]. exfalso.
    destruct (UnlockByPull_found repoFullName pullNum b' lock)
      as (k & v & Hv & Hdec & Hprefix & Hnum); [rewrite Hrun; by left|].
    destruct (runLocks b !! k) as [v0|] eqn:Hv0.
    - destruct (Hwell _ _ Hv0) as (lock0 & Hdec0 & _).
      destruct (decide (PullRequest.Num (ProjectLock.Pull lock0) = pullNum)) as [Hnum0|Hnum0].
      + destruct (UnlockByPull_releases repoFullName pullNum b k v0 lock0) as (_ & _ & Hgone);
          [done..|]. unfold b' in Hv. congruence.
      + pose proof (UnlockByPull_keeps repoFullName pullNum b k v0 lock0 Hwell Hv0 Hdec0
                      (or_intror Hnum0)) as Hkept.
        unfold b' in Hv. congruence.
    - destruct (UnlockByPull_wellKeyed_run repoFullName pullNum b Hwell)
        as (locks & _ & Hrun0).
      destruct (unlockAll_wellKeyed locks (rollback ReadOnly b) Hwell) as [_ Hgone].
      unfold b' in Hv. rewrite Hrun0 in Hv. simpl in Hv.
      rewrite Hgone in Hv; [done|by left]. }
  by rewrite Hrun.
Qed.

(** X12. [UnlockByPull] is not one transaction: on a well-keyed bucket it
    opens one read transaction and then one write transaction for each lock
    it returns. *)
Theorem UnlockByPull_transactions (repoFullName : string) (pullNum : Z) (b : BoltDB) :
  wellKeyed (runLocks b) →
  txlog (UnlockByPull repoFullName pullNum b).1 =
    (txlog b ++ ReadOnly ::
       replicate (length (UnlockByPull repoFullName pullNum b).2.1) ReadWrite)%list.
Proof.
  intros Hwell.
  destruct (UnlockByPull_wellKeyed_run repoFullName pullNum b Hwell) as (locks & _ & ->).
  simpl. rewrite unlockAll_txlog by done. simpl. by rewrite <- app_assoc.
Qed.

End LockStoreMore.

Section PullStatusMore.
Context `{!JSON PullStatus.t}.

(** *** The ways a call can go *)

Lemma getPullFromBucket_run key (bucket : gmap string bytes) :
  getPullFromBucket key bucket =
    match bucket !! key with
    | None => inr (bucket, None)
    | Some v =>
        match Unmarshal v with
        | None => inl (Wrap JSONError "deserializing pull at %q with contents %q")
        | Some p => inr (bucket, Some p)
        end
    end.
Proof.
  unfold getPullFromBucket. tx_unfold.
  destruct (bucket !! key) as [v|]; [|done]. by destruct (Unmarshal v).
Qed.

Lemma UpdatePullWithResults_run pull newResults b key currStatus :
  pullKey pull = inr key →
  getPullFromBucket key (pulls b) = inr (pulls b, currStatus) →
  UpdatePullWithResults pull newResults b =
    match Marshal (newStatus pull newResults currStatus) with
    | Some serialized =>
        (commit pullsBucketName (<[key := serialized]> (pulls b)) ReadWrite b,
         inr (newStatus pull newResults currStatus))
    | None =>
        (rollback ReadWrite b, inl (Wrap (Wrap JSONError "serializing") "DB transaction failed"))
    end.
Proof.
  intros Hkey Hget. unfold UpdatePullWithResults. rewrite Hkey.
  unfold Update, mbind, Tx_bind. simpl. rewrite Hget.
  unfold writePullToBucket, newStatus, replaced, merged, PullStatus.setProjects.
  destruct currStatus as [currStatus|]; [case_bool_decide|];
    (destruct (Marshal _); tx_unfold; done).
Qed.

Lemma UpdatePullWithResults_undecodable pull newResults b key v :
  pullKey pull = inr key →
  pulls b !! key = Some v →
  Unmarshal (A:=PullStatus.t) v = None →
  UpdatePullWithResults pull newResults b =
    (rollback ReadWrite b,
     inl (Wrap (Wrap JSONError "deserializing pull at %q with contents %q")
            "DB transaction failed")).
Proof.
  intros Hkey Hv Hbad. unfold UpdatePullWithResults. rewrite Hkey.
  unfold Update, mbind, Tx_bind. simpl. by rewrite getPullFromBucket_run, Hv, Hbad.
Qed.

Lemma getPullFromBucket_cases key (bucket : gmap string bytes) :
  (∃ currStatus, getPullFromBucket key bucket = inr (bucket, currStatus)) ∨
  (∃ v, bucket !! key = Some v ∧ Unmarshal (A:=PullStatus.t) v = None).
Proof.
  rewrite getPullFromBucket_run. destruct (bucket !! key) as [v|]; [|eauto].
  destruct (Unmarshal v) eqn:Hdec; eauto.
Qed.

Lemma UpdatePullWithResults_success pull newResults b s :
  (UpdatePullWithResults pull newResults b).2 = inr s →
  ∃ key currStatus serialized,
    pullKey pull = inr key ∧
    getPullFromBucket key (pulls b) = inr (pulls b, currStatus) ∧
    s = newStatus pull newResults currStatus ∧
    Marshal s = Some serialized ∧
    UpdatePullWithResults pull newResults b =
      (commit pullsBucketName (<[key := serialized]> (pulls b)) ReadWrite b, inr s).
Proof.
  destruct (pullKey pull) as [err|key] eqn:Hkey.
  { unfold UpdatePullWithResults. by rewrite Hkey. }
  destruct (getPullFromBucket_cases key (pulls b)) as [[currStatus Hget]|(v & Hv & Hbad)].
  - rewrite (UpdatePullWithResults_run _ _ _ _ _ Hkey Hget).
    destruct (Marshal _) as [serialized|] eqn:Hser; [|done].
    intros [= <-]. exists key, currStatus, serialized. done.
  - by rewrite (UpdatePullWithResults_undecodable _ _ _ _ _ Hkey Hv Hbad).
Qed.

Lemma GetPullStatus_run pull b key :
  pullKey pull = inr key →
  GetPullStatus pull b =
    match getPullFromBucket key (pulls b) with
    | inl e => (rollback ReadOnly b, inl (Wrap e "DB transaction failed"))
    | inr (_, s) => (rollback ReadOnly b, inr s)
    end.
Proof.
  intros Hkey. unfold GetPullStatus, View. rewrite Hkey. simpl.
  by destruct (getPullFromBucket key (pulls b)) as [e|[? s]].
Qed.

Lemma DeletePullStatus_run pull b key :
  pullKey pull = inr key →
  DeletePullStatus pull b =
    (commit pullsBucketName (delete key (pulls b)) ReadWrite b, None).
Proof. intros Hkey. unfold DeletePullStatus. by rewrite Hkey. Qed.

Lemma DeleteProjectStatus_run pull workspace repoRelDir b key :
  pullKey pull = inr key →
  DeleteProjectStatus pull workspace repoRelDir b =
    match getPullFromBucket key (pulls b) with
    | inl e => (rollback ReadWrite b, Some (Wrap e "DB transaction failed"))
    | inr (_, None) => (commit pullsBucketName (pulls b) ReadWrite b, None)
    | inr (_, Some currStatus) =>
        match Marshal (PullStatus.mk (PullStatus.Pull currStatus)
                         (pruned workspace repoRelDir (PullStatus.Projects currStatus))) with
        | Some serialized =>
            (commit pullsBucketName (<[key := serialized]> (pulls b)) ReadWrite b, None)
        | None =>
            (rollback ReadWrite b,
             Some (Wrap (Wrap JSONError "serializing") "DB transaction failed"))
        end
    end.
Proof.
  intros Hkey. unfold DeleteProjectStatus. rewrite Hkey.
  unfold Update, mbind, Tx_bind. simpl.
  rewrite getPullFromBucket_run.
  destruct (pulls b !! key) as [v|]; [|done].
  destruct (Unmarshal v) as [currStatus|]; [|done].
  unfold writePullToBucket, pruned, PullStatus.setProjects.
  destruct (Marshal _); tx_unfold; done.
Qed.

(** X13. What [UpdatePullWithResults] returns is what [GetPullStatus] reads
    afterwards, when the serialisation of the returned status decodes to
    it. *)
Theorem UpdatePullWithResults_GetPullStatus (pull : PullRequest.t)
    (newResults : list ProjectResult.t) (b : BoltDB) (s : PullStatus.t) :
  (UpdatePullWithResults pull newResults b).2 = inr s →
  (∀ serialized, Marshal s = Some serialized → Unmarshal serialized = Some s) →
  (GetPullStatus pull (UpdatePullWithResults pull newResults b).1).2 = inr (Some s).
Proof.
  intros Hok Hfaithful.
  destruct (UpdatePullWithResults_success _ _ _ _ Hok)
    as (key & currStatus & serialized & Hkey & _ & _ & Hser & ->).
  rewrite (GetPullStatus_run _ _ _ Hkey), getPullFromBucket_run. simpl.
  by rewrite lookup_insert_eq, (Hfaithful _ Hser).
Qed.

(** X14. In the pull-status store an error means that nothing was written:
    when [UpdatePullWithResults], [DeleteProjectStatus] or [DeletePullStatus]
    returns an error, whatever its cause, the bucket is as it was. *)
Theorem pull_status_error_rolls_back (pull : PullRequest.t) (b : BoltDB) :
  (∀ newResults e,
     (UpdatePullWithResults pull newResults b).2 = inl e →
     pulls (UpdatePullWithResults pull newResults b).1 = pulls b)
  ∧ (∀ workspace repoRelDir e,
     (DeleteProjectStatus pull workspace repoRelDir b).2 = Some e →
     pulls (DeleteProjectStatus pull workspace repoRelDir b).1 = pulls b)
  ∧ (∀ e, (DeletePullStatus pull b).2 = Some e →
     pulls (DeletePullStatus pull b).1 = pulls b).
Proof.
  destruct (pullKey pull) as [err|key] eqn:Hkey.
  { unfold UpdatePullWithResults, DeleteProjectStatus, DeletePullStatus.
    rewrite Hkey. done. }
  split_and!.
  - intros newResults e.
    destruct (getPullFromBucket_cases key (pulls b)) as [[currStatus Hget]|(v & Hv & Hbad)].
    + rewrite (UpdatePullWithResults_run _ _ _ _ _ Hkey Hget).
      by destruct (Marshal _).
    + by rewrite (UpdatePullWithResults_undecodable _ _ _ _ _ Hkey Hv Hbad).
  - intros workspace repoRelDir e. rewrite (DeleteProjectStatus_run _ _ _ _ _ Hkey).
    destruct (getPullFromBucket key (pulls b)) as [?|[? [currStatus|]]]; [done| |done].
    by destruct (Marshal _).
  - intros e. by rewrite (DeletePullStatus_run _ _ _ Hkey).
Qed.

(** X15. A stored value that does not decode makes [UpdatePullWithResults],
    [GetPullStatus] and [DeleteProjectStatus] fail and stays in place;
    [DeletePullStatus], which does not read the value, removes it without
    error. *)
Theorem undecodable_pull_status (pull : PullRequest.t) (b : BoltDB)
    (key : string) (v : bytes) :
  pullKey pull = inr key →
  pulls b !! key = Some v →
  Unmarshal (A:=PullStatus.t) v = None →
  (∀ newResults,
     (∃ e, (UpdatePullWithResults pull newResults b).2 = inl e) ∧
     pulls (UpdatePullWithResults pull newResults b).1 = pulls b)
  ∧ (∃ e, (GetPullStatus pull b).2 = inl e)
  ∧ (∀ workspace repoRelDir,
     (∃ e, (DeleteProjectStatus pull workspace repoRelDir b).2 = Some e) ∧
     pulls (DeleteProjectStatus pull workspace repoRelDir b).1 = pulls b)
  ∧ (DeletePullStatus pull b).2 = None
  ∧ pulls (DeletePullStatus pull b).1 !! key = None.
Proof.
  intros Hkey Hv Hbad. split_and!.
  - intros newResults.
    rewrite (UpdatePullWithResults_undecodable _ _ _ _ _ Hkey Hv Hbad). eauto.
  - rewrite (GetPullStatus_run _ _ _ Hkey), getPullFromBucket_run, Hv, Hbad. eauto.
  - intros workspace repoRelDir.
    rewrite (DeleteProjectStatus_run _ _ _ _ _ Hkey), getPullFromBucket_run, Hv, Hbad. eauto.
  - by rewrite (DeletePullStatus_run _ _ _ Hkey).
  - rewrite (DeletePullStatus_run _ _ _ Hkey). apply lookup_delete_eq.
Qed.

(** X16. An operation of the pull-status store changes nothing but the
    value under the key of its pull request: the locks and the values under
    all other keys are as they were, and [GetPullStatus] changes nothing. *)
Theorem pull_status_store_frame (pull : PullRequest.t) (b : BoltDB) :
  let untouched (b' : BoltDB) :=
    runLocks b' = runLocks b ∧
    ∀ k, pullKey pull ≠ inr k → pulls b' !! k = pulls b !! k in
  (∀ newResults, untouched (UpdatePullWithResults pull newResults b).1)
  ∧ (∀ workspace repoRelDir, untouched (DeleteProjectStatus pull workspace repoRelDir b).1)
  ∧ untouched (DeletePullStatus pull b).1
  ∧ (runLocks (GetPullStatus pull b).1 = runLocks b ∧
     pulls (GetPullStatus pull b).1 = pulls b).
Proof.
  intros untouched. unfold untouched.
  destruct (pullKey pull) as [err|key] eqn:Hkey.
  { unfold UpdatePullWithResults, DeleteProjectStatus, DeletePullStatus, GetPullStatus.
    rewrite Hkey. done. }
  split_and!.
  - intros newResults.
    destruct (getPullFromBucket_cases key (pulls b)) as [[currStatus Hget]|(v & Hv & Hbad)].
    + rewrite (UpdatePullWithResults_run _ _ _ _ _ Hkey Hget).
      destruct (Marshal _); simpl; [|done]. split; [done|].
      intros k Hk. rewrite lookup_insert_ne; [done|congruence].
    + by rewrite (UpdatePullWithResults_undecodable _ _ _ _ _ Hkey Hv Hbad).
  - intros workspace repoRelDir. rewrite (DeleteProjectStatus_run _ _ _ _ _ Hkey).
    destruct (getPullFromBucket key (pulls b)) as [?|[? [currStatus|]]]; [done| |done].
    destruct (Marshal _); simpl; [|done]. split; [done|].
    intros k Hk. rewrite lookup_insert_ne; [done|congruence].
  - by rewrite (DeletePullStatus_run _ _ _ Hkey).
  - rewrite (DeletePullStatus_run _ _ _ Hkey). simpl.
    intros k Hk. rewrite lookup_delete_ne; [done|congruence].
  - rewrite (GetPullStatus_run _ _ _ Hkey).
    by destruct (getPullFromBucket key (pulls b)) as [?|[? ?]].
  - rewrite (GetPullStatus_run _ _ _ Hkey).
    by destruct (getPullFromBucket key (pulls b)) as [?|[? ?]].
Qed.

(** X17. [DeletePullStatus] with a valid key never fails; afterwards
    [GetPullStatus] returns nil and the next [UpdatePullWithResults] starts
    from the results alone; on a pull request without record the bucket is
    left as it was. *)
Theorem DeletePullStatus_removes (pull : PullRequest.t) (b : BoltDB) (key : string) :
  pullKey pull = inr key →
  (DeletePullStatus pull b).2 = None ∧
  (GetPullStatus pull (DeletePullStatus pull b).1).2 = inr None ∧
  (pulls b !! key = None → pulls (DeletePullStatus pull b).1 = pulls b) ∧
  (∀ newResults,
     (UpdatePullWithResults pull newResults (DeletePullStatus pull b).1).2 =
       match Marshal (replaced pull newResults) with
       | Some _ => inr (replaced pull newResults)
       | None => inl (Wrap (Wrap JSONError "serializing") "DB transaction failed")
       end).
Proof.
  intros Hkey. rewrite (DeletePullStatus_run _ _ _ Hkey). simpl. split_and!.
  - done.
  - rewrite (GetPullStatus_run _ _ _ Hkey), getPullFromBucket_run. simpl.
    by rewrite lookup_delete_eq.
  - intros Hnone. by apply delete_id.
  - intros newResults.
    rewrite (UpdatePullWithResults_run _ _ _ key None Hkey).
    + simpl. by destruct (Marshal _).
    + rewrite getPullFromBucket_run. simpl. by rewrite lookup_delete_eq.
Qed.

(** X18. After [DeleteProjectStatus] the record is still there, also when no
    project is left in it: [GetPullStatus] returns the status with the kept
    projects, none of which matches the workspace and directory, and a second
    [DeleteProjectStatus] with the same arguments changes nothing. *)
Theorem DeleteProjectStatus_GetPullStatus (pull : PullRequest.t)
    (workspace repoRelDir : string) (b : BoltDB) (key : string) (v serialized : bytes)
    (currStatus : PullStatus.t) :
  let kept := PullStatus.mk (PullStatus.Pull currStatus)
                (pruned workspace repoRelDir (PullStatus.Projects currStatus)) in
  let b' := (DeleteProjectStatus pull workspace repoRelDir b).1 in
  pullKey pull = inr key →
  pulls b !! key = Some v →
  Unmarshal v = Some currStatus →
  Marshal kept = Some serialized →
  Unmarshal serialized = Some kept →
  (GetPullStatus pull b').2 = inr (Some kept) ∧
  (∀ p, p ∈ PullStatus.Projects kept →
     ¬ (ProjectStatus.Workspace p = workspace ∧ ProjectStatus.RepoRelDir p = repoRelDir)) ∧
  (DeleteProjectStatus pull workspace repoRelDir b').2 = None ∧
  pulls (DeleteProjectStatus pull workspace repoRelDir b').1 = pulls b'.
Proof.
  intros kept b' Hkey Hv Hdec Hser Hback.
  assert (pulls b' = <[key := serialized]> (pulls b)) as Hb'.
  { unfold b'. rewrite (DeleteProjectStatus_run _ _ _ _ _ Hkey), getPullFromBucket_run,
      Hv, Hdec. fold kept. by rewrite Hser. }
  assert (pruned workspace repoRelDir (PullStatus.Projects kept) = PullStatus.Projects kept)
    as Hidem.
  { simpl. unfold pruned. by apply list_filter_filter_l. }
  split_and!.
  - rewrite (GetPullStatus_run _ _ _ Hkey), getPullFromBucket_run, Hb', lookup_insert_eq.
    by rewrite Hback.
  - intros p Hp. simpl in Hp. unfold pruned in Hp. by apply list_elem_of_filter in Hp as [? _].
  - rewrite (DeleteProjectStatus_run _ _ _ _ _ Hkey), getPullFromBucket_run, Hb',
      lookup_insert_eq, Hback, Hidem. simpl. fold kept. by rewrite Hser.
  - rewrite (DeleteProjectStatus_run _ _ _ _ _ Hkey), getPullFromBucket_run, Hb',
      lookup_insert_eq, Hback, Hidem. simpl. fold kept. rewrite Hser. simpl.
    by rewrite insert_insert_eq.
Qed.

(** *** The merge *)

Lemma findExisting_Some res (projects : list ProjectStatus.t) i0 i :
  findExisting res projects i0 = Some i →
  ∃ proj, (i0 ≤ i)%nat ∧ projects !! (i - i0)%nat = Some proj ∧ resultKey res = projectKey proj.
Proof.
  revert i0. induction projects as [|proj rest IH]; intros i0; simpl; [done|].
  destruct (sameProject res proj) eqn:Hsame.
  - intros [= <-]. exists proj. rewrite Nat.sub_diag. split_and!; [lia|done|].
    by apply sameProject_spec.
  - intros Hfind. destruct (IH _ Hfind) as (proj' & Hle & Hlookup & Hkey).
    exists proj'. split_and!; [lia| |done].
    replace (i - i0)%nat with (S (i - S i0)) by lia. done.
Qed.

Lemma mergeResult_prefix (projects : list ProjectStatus.t) res :
  (projectKey <$> projects) `prefix_of` (projectKey <$> mergeResult projects res).
Proof.
  rewrite mergeResult_keys. case_decide; [done|]. by apply prefix_app_r.
Qed.

Lemma foldl_mergeResult_prefix newResults (projects : list ProjectStatus.t) :
  (projectKey <$> projects) `prefix_of` (projectKey <$> foldl mergeResult projects newResults).
Proof.
  revert projects. induction newResults as [|res rest IH]; intros projects; simpl; [done|].
  etrans; [apply mergeResult_prefix|apply IH].
Qed.

Lemma mergeResult_unmentioned (projects : list ProjectStatus.t) res (i : nat) p :
  projects !! i = Some p → resultKey res ≠ projectKey p →
  mergeResult projects res !! i = Some p.
Proof.
  intros Hi Hne. unfold mergeResult.
  destruct (findExisting res projects 0) as [j|] eqn:Hfind.
  - destruct (findExisting_Some _ _ _ _ Hfind) as (proj & _ & Hj & Hkey).
    rewrite Nat.sub_0_r in Hj.
    rewrite list_lookup_alter_ne; [done|]. intros ->. congruence.
  - by apply lookup_app_l_Some.
Qed.

Lemma foldl_mergeResult_unmentioned newResults (projects : list ProjectStatus.t) (i : nat) p :
  projects !! i = Some p →
  (∀ res, res ∈ newResults → resultKey res ≠ projectKey p) →
  foldl mergeResult projects newResults !! i = Some p.
Proof.
  revert projects. induction newResults as [|res rest IH]; intros projects Hi Hne; simpl;
    [done|].
  apply IH.
  - apply mergeResult_unmentioned; [done|]. apply Hne. by left.
  - intros res' Hin. apply Hne. by right.
Qed.

Lemma mergeResult_mentions (projects : list ProjectStatus.t) res :
  resultKey res ∈ projectKey <$> mergeResult projects res.
Proof.
  rewrite mergeResult_keys. case_decide; [done|]. apply elem_of_app. right. by left.
Qed.

Lemma foldl_mergeResult_mentions newResults (projects : list ProjectStatus.t) res :
  res ∈ newResults →
  resultKey res ∈ projectKey <$> foldl mergeResult projects newResults.
Proof.
  revert projects. induction newResults as [|res' rest IH]; intros projects Hin; simpl;
    [by apply elem_of_nil in Hin|].
  apply elem_of_cons in Hin as [->|Hin]; [|by apply IH].
  eapply elem_of_prefix; [apply mergeResult_mentions|apply foldl_mergeResult_prefix].
Qed.

Lemma lastResult_snoc key results r :
  lastResult key (results ++ [r]) =
    if decide (resultKey r = key) then Some r else lastResult key results.
Proof.
  unfold lastResult. rewrite filter_app, filter_cons, filter_nil.
  case_decide; [apply last_snoc|by rewrite app_nil_r].
Qed.

Lemma mergeResult_last_wins (projects : list ProjectStatus.t) res p :
  NoDup (projectKey <$> projects) →
  p ∈ mergeResult projects res →
  if decide (resultKey res = projectKey p)
  then ProjectStatus.Status p = ProjectResult.PlanStatus res
  else p ∈ projects.
Proof.
  intros Hnodup Hin. unfold mergeResult in Hin.
  destruct (findExisting res projects 0) as [j|] eqn:Hfind.
  - destruct (findExisting_Some _ _ _ _ Hfind) as (proj & _ & Hj & Hkey).
    rewrite Nat.sub_0_r in Hj.
    apply list_elem_of_lookup in Hin as [i Hi].
    destruct (decide (i = j)) as [->|Hij].
    + rewrite list_lookup_alter_eq, Hj in Hi. simpl in Hi. injection Hi as <-.
      rewrite projectKey_setStatus, decide_True by done. done.
    + rewrite list_lookup_alter_ne in Hi by congruence.
      case_decide as Hp; [|by eapply list_elem_of_lookup_2].
      exfalso. apply Hij. eapply NoDup_lookup; [exact Hnodup|..].
      * by rewrite list_lookup_fmap, Hi.
      * rewrite list_lookup_fmap, Hj. simpl. congruence.
  - apply findExisting_None in Hfind.
    apply elem_of_app in Hin as [Hin|Hin].
    + rewrite decide_False; [done|]. intros Hp. apply Hfind. rewrite Hp.
      by apply list_elem_of_fmap_2.
    + apply list_elem_of_singleton in Hin as ->. by rewrite decide_True.
Qed.

Lemma foldl_mergeResult_last_wins newResults (projects : list ProjectStatus.t) p :
  NoDup (projectKey <$> projects) →
  p ∈ foldl mergeResult projects newResults →
  match lastResult (projectKey p) newResults with
  | Some res => ProjectStatus.Status p = ProjectResult.PlanStatus res
  | None => p ∈ projects
  end.
Proof.
  intros Hnodup. revert p.
  induction newResults as [|res rest IH] using rev_ind; intros p Hin; [done|].
  rewrite foldl_app in Hin. simpl in Hin. rewrite lastResult_snoc.
  apply mergeResult_last_wins in Hin; [|by apply foldl_mergeResult_NoDup].
  case_decide; [done|]. by apply IH.
Qed.

Lemma UpdatePullWithResults_merge_result pull newResults b key v currStatus s :
  pullKey pull = inr key →
  pulls b !! key = Some v →
  Unmarshal v = Some currStatus →
  PullRequest.HeadCommit (PullStatus.Pull currStatus) = PullRequest.HeadCommit pull →
  (UpdatePullWithResults pull newResults b).2 = inr s →
  s = merged currStatus newResults.
Proof.
  intros Hkey Hv Hdec Hhead Hok.
  destruct (UpdatePullWithResults_success _ _ _ _ Hok)
    as (key' & curr & serialized & Hkey' & Hget & -> & _).
  assert (key' = key) as -> by congruence.
  rewrite getPullFromBucket_run, Hv, Hdec in Hget. injection Hget as <-.
  unfold newStatus. by rewrite bool_decide_eq_false_2 by (by intros ?).
Qed.

(** X19. The merge never drops or moves a stored project: the keys of the
    stored projects, in order, start the keys of the projects returned; a
    stored project that no result speaks about is returned unchanged at its
    index; and every result's project is among the projects returned. *)
Theorem UpdatePullWithResults_merge_keeps_projects (pull : PullRequest.t)
    (newResults : list ProjectResult.t) (b : BoltDB) (key : string) (v : bytes)
    (currStatus s : PullStatus.t) :
  pullKey pull = inr key →
  pulls b !! key = Some v →
  Unmarshal v = Some currStatus →
  PullRequest.HeadCommit (PullStatus.Pull currStatus) = PullRequest.HeadCommit pull →
  (UpdatePullWithResults pull newResults b).2 = inr s →
  (projectKey <$> PullStatus.Projects currStatus)
    `prefix_of` (projectKey <$> PullStatus.Projects s) ∧
  (∀ (i : nat) p,
     PullStatus.Projects currStatus !! i = Some p →
     (∀ res, res ∈ newResults → resultKey res ≠ projectKey p) →
     PullStatus.Projects s !! i = Some p) ∧
  (∀ res, res ∈ newResults → resultKey res ∈ projectKey <$> PullStatus.Projects s).
Proof.
  intros Hkey Hv Hdec Hhead Hok.
  rewrite (UpdatePullWithResults_merge_result _ _ _ _ _ _ _ Hkey Hv Hdec Hhead Hok). simpl.
  split_and!.
  - apply foldl_mergeResult_prefix.
  - intros i p. apply foldl_mergeResult_unmentioned.
  - intros res. apply foldl_mergeResult_mentions.
Qed.

(** X20. After a merge into a status without repeated projects, every
    project returned has the status of the last result that speaks about it,
    and a project no result speaks about is a stored one, unchanged. *)
Theorem UpdatePullWithResults_merge_last_wins (pull : PullRequest.t)
    (newResults : list ProjectResult.t) (b : BoltDB) (key : string) (v : bytes)
    (currStatus s : PullStatus.t) :
  pullKey pull = inr key →
  pulls b !! key = Some v →
  Unmarshal v = Some currStatus →
  PullRequest.HeadCommit (PullStatus.Pull currStatus) = PullRequest.HeadCommit pull →
  uniqueProjects currStatus →
  (UpdatePullWithResults pull newResults b).2 = inr s →
  ∀ p, p ∈ PullStatus.Projects s →
    match lastResult (projectKey p) newResults with
    | Some res => ProjectStatus.Status p = ProjectResult.PlanStatus res
    | None => p ∈ PullStatus.Projects currStatus
    end.
Proof.
  intros Hkey Hv Hdec Hhead Hunique Hok.
  rewrite (UpdatePullWithResults_merge_result _ _ _ _ _ _ _ Hkey Hv Hdec Hhead Hok). simpl.
  intros p. by apply foldl_mergeResult_last_wins.
Qed.

(** X21. Two updates at the stored head commit, one after the other, return
    and store what one update with both lists of results in a row does. *)
Theorem UpdatePullWithResults_merge_twice (pull : PullRequest.t)
    (results1 results2 : list ProjectResult.t) (b : BoltDB) (key : string)
    (v serialized1 serialized : bytes) (currStatus : PullStatus.t) :
  pullKey pull = inr key →
  pulls b !! key = Some v →
  Unmarshal v = Some currStatus →
  PullRequest.HeadCommit (PullStatus.Pull currStatus) = PullRequest.HeadCommit pull →
  Marshal (merged currStatus results1) = Some serialized1 →
  Unmarshal serialized1 = Some (merged currStatus results1) →
  Marshal (merged currStatus (results1 ++ results2)) = Some serialized →
  let b1 := (UpdatePullWithResults pull results1 b).1 in
  (UpdatePullWithResults pull results2 b1).2
    = inr (merged currStatus (results1 ++ results2)) ∧
  (UpdatePullWithResults pull (results1 ++ results2) b).2
    = inr (merged currStatus (results1 ++ results2)) ∧
  pulls (UpdatePullWithResults pull results2 b1).1
    = pulls (UpdatePullWithResults pull (results1 ++ results2) b).1.
Proof.
  intros Hkey Hv Hdec Hhead Hser1 Hback Hser b1.
  assert (merged (merged currStatus results1) results2
          = merged currStatus (results1 ++ results2)) as Hcompose.
  { unfold merged. simpl. by rewrite foldl_app. }
  assert (pulls b1 = <[key := serialized1]> (pulls b)) as Hb1.
  { unfold b1. by rewrite (UpdatePullWithResults_merged _ _ _ _ _ _ _ Hkey Hv Hdec Hhead Hser1). }
  assert (pulls b1 !! key = Some serialized1) as Hv1
    by (rewrite Hb1; apply lookup_insert_eq).
  rewrite (UpdatePullWithResults_merged _ _ _ _ _ _ _ Hkey Hv Hdec Hhead Hser).
  rewrite <- Hcompose in Hser |- *.
  rewrite (UpdatePullWithResults_merged pull results2 b1 key serialized1
             (merged currStatus results1) serialized Hkey Hv1 Hback Hhead Hser).
  simpl. by rewrite Hb1, insert_insert_eq.
Qed.

End PullStatusMore.

Section PullKeyMore.

Lemma pullKey_inr pull key :
  pullKey pull = inr key →
  let hostname := VCSHost.Hostname (Repo.VCSHost (PullRequest.BaseRepo pull)) in
  let repo := Repo.FullName (PullRequest.BaseRepo pull) in
  strings_Contains hostname pullKeySeparator = false ∧
  strings_Contains repo pullKeySeparator = false ∧
  key = hostname ++ "::" ++ repo ++ "::" ++ pretty (PullRequest.Num pull).
Proof.
  unfold pullKey. destruct (strings_Contains _ _); [done|].
  destruct (strings_Contains _ _); [done|]. by intros [= <-].
Qed.

Lemma sepfree_tail c s :
  strings_Contains (String c s) pullKeySeparator = false →
  strings_Contains s pullKeySeparator = false.
Proof. rewrite strings_Contains_cons. by intros [_ ?]%orb_false_iff. Qed.

Lemma sepfree_not_sep s : strings_Contains ("::" ++ s) pullKeySeparator = false → False.
Proof. by destruct s. Qed.

Lemma endsWithColon_tail c s : s ≠ "" → endsWithColon s → endsWithColon (String c s).
Proof. intros _ [before ->]. by exists (String c before). Qed.

Lemma split_at_separator (h1 h2 t1 t2 : string) :
  strings_Contains h1 pullKeySeparator = false →
  strings_Contains h2 pullKeySeparator = false →
  ¬ endsWithColon h1 → ¬ endsWithColon h2 →
  h1 ++ "::" ++ t1 = h2 ++ "::" ++ t2 →
  h1 = h2 ∧ t1 = t2.
Proof.
  revert h2. induction h1 as [|c h1 IH]; intros [|d h2] Hfree1 Hfree2 Hend1 Hend2 Heq.
  - by injection Heq.
  - exfalso. injection Heq as <- Heq. destruct h2 as [|e h2].
    + apply Hend2. by exists "".
    + injection Heq as <- _. by apply (sepfree_not_sep h2).
  - exfalso. injection Heq as -> Heq. destruct h1 as [|e h1].
    + apply Hend1. by exists "".
    + injection Heq as -> _. by apply (sepfree_not_sep h1).
  - injection Heq as <- Heq.
    destruct (IH h2) as [-> ->]; [by eapply sepfree_tail..| | |done|done].
    + intros Hend. apply Hend1. destruct h1; [|by apply endsWithColon_tail].
      by destruct Hend as [[|??] ?].
    + intros Hend. apply Hend2. destruct h2; [|by apply endsWithColon_tail].
      by destruct Hend as [[|??] ?].
Qed.

Lemma split_before_number (r1 r2 n1 n2 : string) :
  strings_Contains r1 pullKeySeparator = false →
  strings_Contains r2 pullKeySeparator = false →
  (∀ rest, n1 ≠ ":" ++ rest) → (∀ rest, n2 ≠ ":" ++ rest) →
  r1 ++ "::" ++ n1 = r2 ++ "::" ++ n2 →
  r1 = r2 ∧ n1 = n2.
Proof.
  revert r2. induction r1 as [|c r1 IH]; intros [|d r2] Hfree1 Hfree2 Hn1 Hn2 Heq.
  - by injection Heq.
  - exfalso. injection Heq as <- Heq. destruct r2 as [|e r2].
    + injection Heq as Heq. by apply (Hn1 n2).
    + injection Heq as <- _. by apply (sepfree_not_sep r2).
  - exfalso. injection Heq as -> Heq. destruct r1 as [|e r1].
    + injection Heq as Heq. by apply (Hn2 n1).
    + injection Heq as -> _. by apply (sepfree_not_sep r1).
  - injection Heq as <- Heq.
    destruct (IH r2) as [-> ->]; [by eapply sepfree_tail..|done|done|done|done].
Qed.

Lemma endsWithColon_lastByte (s : string) :
  endsWithColon s → lastByte s = lastByte ":".
Proof.
  intros [before ->]. induction before as [|c before IH]; [done|].
  rewrite append_cons_l. simpl. rewrite IH.
  destruct (before ++ ":") eqn:Hrest; [|done]. by destruct before.
Qed.

Lemma pretty_N_go_ne_colon x s s' : s ≠ ":" ++ s' → pretty_N_go x s ≠ ":" ++ s'.
Proof.
  revert s. induction (N.lt_wf_0 x) as [x _ IH]; intros s Hs.
  destruct (decide (x = 0)%N) as [->|Hx]; [by rewrite pretty_N_go_0|].
  rewrite pretty_N_go_step by lia. apply IH; [apply N.div_lt; lia|].
  unfold pretty_N_char. by repeat case_match.
Qed.

Lemma pretty_Z_ne_colon (z : Z) rest : pretty z ≠ ":" ++ rest.
Proof.
  destruct z as [|x|x]; unfold pretty, pretty_Z; [done| |done].
  unfold pretty, pretty_positive, pretty, pretty_N. simpl.
  by apply pretty_N_go_ne_colon.
Qed.

(** X22. Pull requests whose hostnames do not end with a colon and whose
    keys are the same have the same hostname, the same repository name and
    the same number. *)
Theorem pullKey_injective (pull1 pull2 : PullRequest.t) (key : string) :
  let hostname pull := VCSHost.Hostname (Repo.VCSHost (PullRequest.BaseRepo pull)) in
  let repo pull := Repo.FullName (PullRequest.BaseRepo pull) in
  pullKey pull1 = inr key →
  pullKey pull2 = inr key →
  ¬ endsWithColon (hostname pull1) →
  ¬ endsWithColon (hostname pull2) →
  hostname pull1 = hostname pull2 ∧
  repo pull1 = repo pull2 ∧
  PullRequest.Num pull1 = PullRequest.Num pull2.
Proof.
  intros hostname repo Hkey1 Hkey2 Hend1 Hend2.
  apply pullKey_inr in Hkey1 as (Hh1 & Hr1 & ->).
  apply pullKey_inr in Hkey2 as (Hh2 & Hr2 & Heq).
  apply split_at_separator in Heq as [Hhost Heq]; [|done..].
  apply split_before_number in Heq as [Hrepo Hnum];
    [|done|done|apply pretty_Z_ne_colon..].
  split_and!; [done..|]. by apply (inj pretty).
Qed.

(** X23. The check for "::" does not make keys unambiguous: a colon at the
    end of the hostname and a colon at the start of the repository name give
    the same key, for two different repositories that both pass the
    check. *)
Theorem pullKey_collision (hostname repo : string) (num : Z) (head branch author : string) :
  let pull1 := PullRequest.mk num head branch author
                 (Repo.mk repo (VCSHost.mk (hostname ++ ":"))) in
  let pull2 := PullRequest.mk num head branch author
                 (Repo.mk (":" ++ repo) (VCSHost.mk hostname)) in
  ¬ containsSeparator (hostname ++ ":") →
  ¬ containsSeparator (":" ++ repo) →
  PullRequest.BaseRepo pull1 ≠ PullRequest.BaseRepo pull2 ∧
  ∃ key, pullKey pull1 = inr key ∧ pullKey pull2 = inr key.
Proof.
  intros pull1 pull2 Hhost Hrepo. split.
  - simpl. intros [= _ Hh]. by apply (append_ne_self hostname ":"); [|symmetry].
  - assert (¬ containsSeparator hostname) as Hhost'.
    { intros (before & after & ->). apply Hhost. exists before, (after ++ ":").
      by rewrite !append_assoc. }
    assert (¬ containsSeparator repo) as Hrepo'.
    { intros (before & after & ->). apply Hrepo. exists (":" ++ before), after.
      by rewrite !append_assoc. }
    exists (hostname ++ ":::" ++ repo ++ "::" ++ pretty num). split.
    + rewrite (pullKey_ok pull1) by done. simpl. by rewrite append_assoc.
    + by rewrite (pullKey_ok pull2).
Qed.

End PullKeyMore.

Section LockStoreMoreExamples.
Import Sample.
#[local] Existing Instance Wire.JSON_ProjectLock.

Lemma undecodable_lock_blocks_slot_witness :
  (∃ e, (TryLock lockB corruptLocks).2 = inl e) ∧
  (∃ e, (Unlock (Project.mk "org/repo" "infra") "default" corruptLocks).2 = inl e) ∧
  (∃ e, (GetLock (Project.mk "org/repo" "infra") "default" corruptLocks).2 = inl e) ∧
  runLocks (TryLock lockB corruptLocks).1 = runLocks corruptLocks ∧
  runLocks (Unlock (Project.mk "org/repo" "infra") "default" corruptLocks).1
    = runLocks corruptLocks.
Proof.
  apply (undecodable_lock_blocks_slot lockB corruptLocks garbage); vm_compute; reflexivity.
Defined.

Lemma lock_store_frame_witness :
  pulls (TryLock lockB onePlanned).1 = pulls onePlanned ∧
  runLocks (TryLock lockC held).1 !! "org/repo/infra/default"
    = runLocks held !! "org/repo/infra/default".
Proof.
  destruct (lock_store_frame onePlanned) as [Htry _].
  destruct (lock_store_frame held) as [Htry' _].
  split; [apply (Htry lockB)|]. apply (Htry' lockC). vm_compute. discriminate.
Defined.

Lemma TryLock_second_refused_witness :
  (TryLock lockA empty).2 = inr (true, lockA) ∧
  (TryLock lockB (TryLock lockA empty).1).2 = inr (false, lockA_stored) ∧
  runLocks (TryLock lockB (TryLock lockA empty).1).1 = runLocks (TryLock lockA empty).1.
Proof.
  apply (TryLock_second_refused lockA lockB empty (default "" (Marshal lockA)));
    vm_compute; reflexivity.
Defined.

Lemma TryLock_drops_Marshal_error_witness :
  (@TryLock Wire.JSON_ProjectLock_dated lockFarFuture empty).2
    = inr (true, lockFarFuture) ∧
  runLocks (@TryLock Wire.JSON_ProjectLock_dated lockFarFuture empty).1
    = <["org/repo/infra/default" := ""]> (runLocks empty).
Proof.
  apply (@TryLock_drops_Marshal_error Wire.JSON_ProjectLock_dated lockFarFuture empty);
    vm_compute; reflexivity.
Defined.

Lemma Unlock_frees_slot_witness :
  (GetLock (Project.mk "org/repo" "infra") "default"
     (Unlock (Project.mk "org/repo" "infra") "default" held).1).2 = inr None ∧
  (Unlock (Project.mk "org/repo" "infra") "default"
     (Unlock (Project.mk "org/repo" "infra") "default" held).1).2 = inr None ∧
  (TryLock lockB (Unlock (Project.mk "org/repo" "infra") "default" held).1).2
    = inr (true, lockB).
Proof.
  destruct (Unlock_frees_slot (Project.mk "org/repo" "infra") "default" held)
    as (Hget & Hunlock & _ & Htry).
  { intros v Hv. exists lockA_stored.
    assert (runLocks held !! lockKey (Project.mk "org/repo" "infra") "default"
            = Some (default "" (Marshal lockA))) as Hheld by (vm_compute; reflexivity).
    assert (v = default "" (Marshal lockA)) as -> by congruence.
    vm_compute; reflexivity. }
  split_and!; [exact Hget|exact Hunlock|]. by apply Htry.
Defined.

Lemma lockKey_alias_blocks_witness :
  ProjectLock.Project lockOrg ≠ ProjectLock.Project lockB ∧
  (TryLock lockB (TryLock lockOrg empty).1).2 = inr (false, lockOrg).
Proof.
  apply (lockKey_alias_blocks "org" "repo" "infra" "default" pull43 pull43
           (ProjectLock.Time lockOrg) (ProjectLock.Time lockB) empty
           (default "" (Marshal lockOrg)) lockOrg);
    vm_compute; reflexivity.
Defined.

Lemma List_all_in_key_order_witness :
  ∃ locks,
    (List threeLocks).2 = (locks, None) ∧
    length locks = size (runLocks threeLocks) ∧
    (∀ lock, lock ∈ locks ↔
       ∃ k v, runLocks threeLocks !! k = Some v ∧ Unmarshal v = Some lock) ∧
    StronglySorted
      (λ x y, Is_true (String.leb
         (lockKey (ProjectLock.Project x) (ProjectLock.Workspace x))
         (lockKey (ProjectLock.Project y) (ProjectLock.Workspace y)))) locks.
Proof. exact (List_all_in_key_order threeLocks wellKeyed_threeLocks). Defined.

Lemma List_undecodable_witness :
  ∃ locks e,
    (List corruptLocks).2 = (locks, Some e) ∧
    length locks < size (runLocks corruptLocks) ∧
    ∀ lock, lock ∈ locks →
      ∃ k' v', runLocks corruptLocks !! k' = Some v' ∧ Unmarshal v' = Some lock.
Proof.
  apply (List_undecodable corruptLocks "org/repo/infra/default" garbage);
    vm_compute; reflexivity.
Defined.

Lemma wellKeyed_corruptLocks_entry :
  runLocks corruptLocks !! "org/repo/infra/default" = Some garbage.
Proof. vm_compute; reflexivity. Qed.

Lemma UnlockByPull_exact_witness :
  (UnlockByPull "org/repo" 42 threeLocks).2.2 = None ∧
  (lockOther ∈ (UnlockByPull "org/repo" 42 threeLocks).2.1) ∧
  runLocks (UnlockByPull "org/repo" 42 threeLocks).1 !! "org/repo/infra/default" = None ∧
  runLocks (UnlockByPull "org/repo" 42 threeLocks).1 !! "org/repo/net/default"
    = Some (default "" (Marshal lockC)) ∧
  runLocks (UnlockByPull "org/repo" 42 threeLocks).1 !! "elsewhere" = None.
Proof.
  destruct (UnlockByPull_exact "org/repo" 42 threeLocks wellKeyed_threeLocks)
    as (Herr & Hfound & Hafter & Hnone).
  split_and!.
  - exact Herr.
  - apply Hfound. exists "org/repo-other/infra/default", (default "" (Marshal lockOther)).
    split_and!; vm_compute; reflexivity.
  - assert (runLocks threeLocks !! "org/repo/infra/default"
            = Some (default "" (Marshal lockA))) as Hv by (vm_compute; reflexivity).
    assert (Unmarshal (default "" (Marshal lockA)) = Some lockA_stored) as Hdec
      by (vm_compute; reflexivity).
    apply (proj1 (Hafter _ _ _ Hv Hdec)). split; vm_compute; reflexivity.
  - assert (runLocks threeLocks !! "org/repo/net/default"
            = Some (default "" (Marshal lockC))) as Hv by (vm_compute; reflexivity).
    assert (Unmarshal (default "" (Marshal lockC)) = Some lockC) as Hdec
      by (vm_compute; reflexivity).
    apply (proj2 (Hafter _ _ _ Hv Hdec)). intros [_ Hnum]. vm_compute in Hnum. discriminate.
  - apply Hnone. vm_compute; reflexivity.
Defined.

Lemma UnlockByPull_undecodable_witness :
  is_Some (UnlockByPull "org/repo" 42 corruptLocks).2.2 ∧
  runLocks (UnlockByPull "org/repo" 42 corruptLocks).1 = runLocks corruptLocks.
Proof.
  apply (UnlockByPull_undecodable "org/repo" 42 corruptLocks
           "org/repo/infra/default" garbage); vm_compute; reflexivity.
Defined.

Lemma UnlockByPull_twice_witness :
  (UnlockByPull "org/repo" 42 (UnlockByPull "org/repo" 42 threeLocks).1).2 = ([], None) ∧
  runLocks (UnlockByPull "org/repo" 42 (UnlockByPull "org/repo" 42 threeLocks).1).1
    = runLocks (UnlockByPull "org/repo" 42 threeLocks).1.
Proof. exact (UnlockByPull_twice "org/repo" 42 threeLocks wellKeyed_threeLocks). Defined.

Lemma UnlockByPull_transactions_witness :
  txlog (UnlockByPull "org/repo" 42 threeLocks).1 =
    (txlog threeLocks ++ ReadOnly ::
       replicate (length (UnlockByPull "org/repo" 42 threeLocks).2.1) ReadWrite)%list.
Proof. exact (UnlockByPull_transactions "org/repo" 42 threeLocks wellKeyed_threeLocks). Defined.

End LockStoreMoreExamples.

Section PullStatusMoreExamples.
Import Sample.
#[local] Existing Instance Wire.JSON_PullStatus.

Lemma pullKey42_ok : pullKey pull42 = inr pullKey42.
Proof. vm_compute; reflexivity. Qed.

Lemma onePlanned_stored :
  pulls onePlanned !! pullKey42 = Some (stored onePlanned pullKey42) ∧
  Unmarshal (stored onePlanned pullKey42) = Some (replaced pull42 [resP 1]).
Proof. split; vm_compute; reflexivity. Qed.

Lemma UpdatePullWithResults_GetPullStatus_witness :
  (GetPullStatus pull42 (UpdatePullWithResults pull42 [resP 2; resQ 3] onePlanned).1).2
  = inr (Some (PullStatus.mk pull42
                 [ProjectStatus.mk "default" "dir1" "p" 2;
                  ProjectStatus.mk "staging" "dir2" "q" 3])).
Proof.
  apply (UpdatePullWithResults_GetPullStatus pull42 [resP 2; resQ 3] onePlanned).
  - vm_compute; reflexivity.
  - intros serialized Hser.
    assert (serialized = default "" (Marshal (merged (replaced pull42 [resP 1])
                                                [resP 2; resQ 3]))) as ->
      by (vm_compute in Hser |- *; congruence).
    vm_compute; reflexivity.
Defined.

Lemma pull_status_error_rolls_back_witness :
  pulls (UpdatePullWithResults pull42 [resP 1] corruptPulls).1 = pulls corruptPulls ∧
  pulls (DeleteProjectStatus pull42 "default" "dir1" corruptPulls).1 = pulls corruptPulls.
Proof.
  destruct (pull_status_error_rolls_back pull42 corruptPulls) as (Hupdate & Hproject & _).
  split.
  - eapply Hupdate. vm_compute; reflexivity.
  - eapply Hproject. vm_compute; reflexivity.
Defined.

Lemma undecodable_pull_status_witness :
  (∀ newResults,
     (∃ e, (UpdatePullWithResults pull42 newResults corruptPulls).2 = inl e) ∧
     pulls (UpdatePullWithResults pull42 newResults corruptPulls).1 = pulls corruptPulls)
  ∧ (∃ e, (GetPullStatus pull42 corruptPulls).2 = inl e)
  ∧ (∀ workspace repoRelDir,
     (∃ e, (DeleteProjectStatus pull42 workspace repoRelDir corruptPulls).2 = Some e) ∧
     pulls (DeleteProjectStatus pull42 workspace repoRelDir corruptPulls).1
       = pulls corruptPulls)
  ∧ (DeletePullStatus pull42 corruptPulls).2 = None
  ∧ pulls (DeletePullStatus pull42 corruptPulls).1 !! pullKey42 = None.
Proof.
  apply (undecodable_pull_status pull42 corruptPulls pullKey42 garbage);
    vm_compute; reflexivity.
Defined.

Lemma pull_status_store_frame_witness :
  runLocks (UpdatePullWithResults pull42 [resP 1] held).1 = runLocks held ∧
  pulls (DeletePullStatus badHostPull onePlanned).1 !! pullKey42
    = pulls onePlanned !! pullKey42.
Proof.
  destruct (pull_status_store_frame pull42 held) as (Hupdate & _).
  destruct (pull_status_store_frame badHostPull onePlanned) as (_ & _ & Hdelete & _).
  split; [apply (Hupdate [resP 1])|]. apply Hdelete. vm_compute. discriminate.
Defined.

Lemma DeletePullStatus_removes_witness :
  (DeletePullStatus pull42 onePlanned).2 = None ∧
  (GetPullStatus pull42 (DeletePullStatus pull42 onePlanned).1).2 = inr None.
Proof.
  destruct (DeletePullStatus_removes pull42 onePlanned pullKey42 pullKey42_ok)
    as (Herr & Hget & _).
  by split.
Defined.

Lemma DeleteProjectStatus_GetPullStatus_witness :
  (GetPullStatus pull42 (DeleteProjectStatus pull42 "default" "dir1" onePlanned).1).2
    = inr (Some (PullStatus.mk pull42 [])).
Proof.
  destruct onePlanned_stored as [Hv Hdec].
  destruct (DeleteProjectStatus_GetPullStatus pull42 "default" "dir1" onePlanned pullKey42
              (stored onePlanned pullKey42)
              (default "" (Marshal (PullStatus.mk pull42 [])))
              (replaced pull42 [resP 1]) pullKey42_ok Hv Hdec)
    as (Hget & _); [vm_compute; reflexivity..|].
  exact Hget.
Defined.

Lemma UpdatePullWithResults_merge_keeps_projects_witness :
  PullStatus.Projects
    (merged (replaced pull42 [resP 1; resOther 2; resQ 3]) [resQ 4]) !! 1%nat
  = Some (ProjectStatus.mk "default" "dir1" "other" 2).
Proof.
  assert (pulls mixed !! pullKey42 = Some (stored mixed pullKey42)) as Hv
    by (vm_compute; reflexivity).
  assert (Unmarshal (stored mixed pullKey42)
          = Some (replaced pull42 [resP 1; resOther 2; resQ 3])) as Hdec
    by (vm_compute; reflexivity).
  destruct (UpdatePullWithResults_merge_keeps_projects pull42 [resQ 4] mixed pullKey42
              (stored mixed pullKey42) (replaced pull42 [resP 1; resOther 2; resQ 3])
              (merged (replaced pull42 [resP 1; resOther 2; resQ 3]) [resQ 4])
              pullKey42_ok Hv Hdec eq_refl)
    as (_ & Hkeeps & _); [vm_compute; reflexivity|].
  apply Hkeeps; [reflexivity|].
  intros res ->%list_elem_of_singleton. discriminate.
Defined.

Lemma UpdatePullWithResults_merge_last_wins_witness :
  match lastResult (projectKey (ProjectStatus.mk "staging" "dir2" "q" 4))
          [resQ 3; resP 2; resQ 4] with
  | Some res => ProjectStatus.Status (ProjectStatus.mk "staging" "dir2" "q" 4)
                = ProjectResult.PlanStatus res
  | None => ProjectStatus.mk "staging" "dir2" "q" 4
            ∈ PullStatus.Projects (replaced pull42 [resP 1])
  end.
Proof.
  destruct onePlanned_stored as [Hv Hdec].
  apply (UpdatePullWithResults_merge_last_wins pull42 [resQ 3; resP 2; resQ 4] onePlanned
           pullKey42 (stored onePlanned pullKey42) (replaced pull42 [resP 1])
           (merged (replaced pull42 [resP 1]) [resQ 3; resP 2; resQ 4])
           pullKey42_ok Hv Hdec eq_refl).
  - unfold uniqueProjects. simpl. apply NoDup_singleton.
  - vm_compute; reflexivity.
  - apply list_elem_of_In. vm_compute. tauto.
Defined.

Lemma UpdatePullWithResults_merge_twice_witness :
  (UpdatePullWithResults pull42 [resP 2]
     (UpdatePullWithResults pull42 [resQ 3] onePlanned).1).2
    = inr (merged (replaced pull42 [resP 1]) [resQ 3; resP 2]) ∧
  (UpdatePullWithResults pull42 [resQ 3; resP 2] onePlanned).2
    = inr (merged (replaced pull42 [resP 1]) [resQ 3; resP 2]) ∧
  pulls (UpdatePullWithResults pull42 [resP 2]
           (UpdatePullWithResults pull42 [resQ 3] onePlanned).1).1
    = pulls (UpdatePullWithResults pull42 [resQ 3; resP 2] onePlanned).1.
Proof.
  destruct onePlanned_stored as [Hv Hdec].
  apply (UpdatePullWithResults_merge_twice pull42 [resQ 3] [resP 2] onePlanned pullKey42
           (stored onePlanned pullKey42)
           (default "" (Marshal (merged (replaced pull42 [resP 1]) [resQ 3])))
           (default "" (Marshal (merged (replaced pull42 [resP 1]) [resQ 3; resP 2])))
           (replaced pull42 [resP 1]) pullKey42_ok Hv Hdec eq_refl);
    vm_compute; reflexivity.
Defined.

Lemma pullKey_injective_witness :
  VCSHost.Hostname (Repo.VCSHost (PullRequest.BaseRepo pull42))
    = VCSHost.Hostname (Repo.VCSHost (PullRequest.BaseRepo renamedPull42)) ∧
  Repo.FullName (PullRequest.BaseRepo pull42)
    = Repo.FullName (PullRequest.BaseRepo renamedPull42) ∧
  PullRequest.Num pull42 = PullRequest.Num renamedPull42.
Proof.
  apply (pullKey_injective pull42 renamedPull42 pullKey42);
    [vm_compute; reflexivity..| |];
    intros Hends%endsWithColon_lastByte; vm_compute in Hends; discriminate.
Defined.

Lemma pullKey_collision_witness :
  PullRequest.BaseRepo colonHostPull ≠ PullRequest.BaseRepo colonRepoPull ∧
  ∃ key, pullKey colonHostPull = inr key ∧ pullKey colonRepoPull = inr key.
Proof.
  apply (pullKey_collision "git" "org/repo" 42 "c0ffee" "feature" "alice");
    intros Hsep%strings_Contains_separator; vm_compute in Hsep; discriminate.
Defined.

End PullStatusMoreExamples.

Section LockStoreCompose.
Context `{!JSON ProjectLock.t}.

Lemma lockKey_prefix (p : Project.t) (workspace : string) :
  bytes_HasPrefix (lockKey p workspace) (Project.RepoFullName p) = true.
Proof. apply prefix_spec. unfold lockKey. eauto. Qed.

(** X24. A lock acquired for a pull request is released by [UnlockByPull]
    called with the repository of its project and the number of its pull
    request: the call returns no error, returns the lock as it reads back from
    the store, and leaves its slot free. *)
Theorem TryLock_UnlockByPull (L : ProjectLock.t) (b : BoltDB)
    (serialized : bytes) (decoded : ProjectLock.t) :
  let repoFullName := Project.RepoFullName (ProjectLock.Project L) in
  let pullNum := PullRequest.Num (ProjectLock.Pull L) in
  let b1 := (TryLock L b).1 in
  wellKeyed (runLocks b) →
  runLocks b !! lockKey (ProjectLock.Project L) (ProjectLock.Workspace L) = None →
  Marshal L = Some serialized →
  Unmarshal serialized = Some decoded →
  sameButLocation decoded L →
  (UnlockByPull repoFullName pullNum b1).2.2 = None ∧
  decoded ∈ (UnlockByPull repoFullName pullNum b1).2.1 ∧
  (GetLock (ProjectLock.Project L) (ProjectLock.Workspace L)
     (UnlockByPull repoFullName pullNum b1).1).2 = inr None.
Proof.
  intros repoFullName pullNum b1 Hwell Hfree Hser Hdec Hsame.
  assert (wellKeyed (runLocks b1)) as Hwell1 by (by eapply TryLock_wellKeyed).
  assert (runLocks b1 !! lockKey (ProjectLock.Project L) (ProjectLock.Workspace L)
          = Some serialized) as Hv.
  { unfold b1. rewrite (TryLock_free _ _ Hfree), Hser. simpl. apply lookup_insert_eq. }
  destruct Hsame as (_ & Hpull & _).
  destruct (UnlockByPull_releases repoFullName pullNum b1 _ _ decoded Hwell1 Hv Hdec)
    as (Herr & Hin & Hgone); [apply lockKey_prefix|by rewrite Hpull|].
  split_and!; [done..|]. by rewrite (GetLock_absent _ _ _ Hgone).
Qed.

Lemma GetLock_Unlock_agree p workspace b :
  (GetLock p workspace b).2 =
    match (Unlock p workspace b).2 with
    | inl _ => inl (Wrap JSONError "deserializing lock at key %q")
    | inr found =>
        inr ((λ lock, ProjectLock.setTime lock (Time.Local (ProjectLock.Time lock)))
               <$> found)
    end.
Proof.
  unfold GetLock, Unlock. tx_unfold.
  destruct (runLocks b !! lockKey p workspace) as [v|]; simpl; [|done].
  by destruct (Unmarshal v).
Qed.

(** X25. [GetLock] reads what [Unlock] would remove, moved to the local zone:
    on one store, when [Unlock] returns a lock, [GetLock] returns that lock
    with its time in the local zone, the instant unchanged; when [Unlock]
    returns nil or an error, so does [GetLock]. *)
Theorem GetLock_reads_what_Unlock_removes (p : Project.t) (workspace : string)
    (b : BoltDB) :
  (∀ lock, (Unlock p workspace b).2 = inr (Some lock) →
     ∃ read,
       (GetLock p workspace b).2 = inr (Some read) ∧
       Time.loc (ProjectLock.Time read) = Time.LocalZone ∧
       sameButLocation read lock)
  ∧ ((Unlock p workspace b).2 = inr None → (GetLock p workspace b).2 = inr None)
  ∧ (∀ e, (Unlock p workspace b).2 = inl e → ∃ e', (GetLock p workspace b).2 = inl e').
Proof.
  rewrite GetLock_Unlock_agree. split_and!.
  - intros lock ->. simpl. eexists. split; [done|]. by repeat split.
  - by intros ->.
  - intros e ->. eauto.
Qed.

End LockStoreCompose.

Section EmptyResults.
Context `{!JSON PullStatus.t}.

(** X26. [UpdatePullWithResults] with no results: at the stored head commit
    it returns the stored status as it is and writes it back; with nothing
    stored, or at another head commit, it stores and returns a status without
    projects, so that a push forgets every project. *)
Theorem UpdatePullWithResults_no_results (pull : PullRequest.t) (b : BoltDB)
    (key : string) :
  pullKey pull = inr key →
  (∀ v currStatus serialized,
     pulls b !! key = Some v →
     Unmarshal v = Some currStatus →
     PullRequest.HeadCommit (PullStatus.Pull currStatus) = PullRequest.HeadCommit pull →
     Marshal currStatus = Some serialized →
     (UpdatePullWithResults pull [] b).2 = inr currStatus ∧
     pulls (UpdatePullWithResults pull [] b).1 = <[key := serialized]> (pulls b))
  ∧ (∀ serialized,
     outOfDate b key pull →
     Marshal (PullStatus.mk pull []) = Some serialized →
     (UpdatePullWithResults pull [] b).2 = inr (PullStatus.mk pull []) ∧
     pulls (UpdatePullWithResults pull [] b).1 = <[key := serialized]> (pulls b)).
Proof.
  intros Hkey. split.
  - intros v currStatus serialized Hv Hdec Hhead Hser.
    assert (merged currStatus [] = currStatus) as Hsame by (by destruct currStatus).
    rewrite <- Hsame in Hser.
    rewrite (UpdatePullWithResults_merged _ _ _ _ _ _ _ Hkey Hv Hdec Hhead Hser).
    by rewrite Hsame.
  - intros serialized Hold Hser.
    by rewrite (UpdatePullWithResults_replaced pull [] b key serialized Hkey Hold Hser).
Qed.

End EmptyResults.

Section ComposeExamples.
Import Sample.
#[local] Existing Instance Wire.JSON_ProjectLock.
#[local] Existing Instance Wire.JSON_PullStatus.

Lemma TryLock_UnlockByPull_witness :
  (UnlockByPull "org/repo" 42 (TryLock lockA empty).1).2.2 = None ∧
  lockA_stored ∈ (UnlockByPull "org/repo" 42 (TryLock lockA empty).1).2.1 ∧
  (GetLock (Project.mk "org/repo" "infra") "default"
     (UnlockByPull "org/repo" 42 (TryLock lockA empty).1).1).2 = inr None.
Proof.
  apply (TryLock_UnlockByPull lockA empty (default "" (Marshal lockA)) lockA_stored).
  - intros k v Hk. unfold empty in Hk. simpl in Hk. by rewrite lookup_empty in Hk.
  - vm_compute; reflexivity.
  - vm_compute; reflexivity.
  - vm_compute; reflexivity.
  - by repeat split.
Defined.

Lemma GetLock_reads_what_Unlock_removes_witness :
  (∃ read,
     (GetLock (Project.mk "org/repo" "infra") "default" held).2 = inr (Some read) ∧
     Time.loc (ProjectLock.Time read) = Time.LocalZone ∧
     sameButLocation read lockA_stored)
  ∧ (GetLock (Project.mk "org/repo" "infra") "default" empty).2 = inr None
  ∧ (∃ e, (GetLock (Project.mk "org/repo" "infra") "default" corruptLocks).2 = inl e).
Proof.
  split_and!.
  - apply (proj1 (GetLock_reads_what_Unlock_removes (Project.mk "org/repo" "infra")
                    "default" held)).
    vm_compute; reflexivity.
  - apply (proj1 (proj2 (GetLock_reads_what_Unlock_removes
                           (Project.mk "org/repo" "infra") "default" empty))).
    vm_compute; reflexivity.
  - eapply (proj2 (proj2 (GetLock_reads_what_Unlock_removes
                            (Project.mk "org/repo" "infra") "default" corruptLocks))).
    vm_compute; reflexivity.
Defined.

Lemma UpdatePullWithResults_no_results_witness :
  ((UpdatePullWithResults pull42 [] onePlanned).2 = inr (replaced pull42 [resP 1]) ∧
   pulls (UpdatePullWithResults pull42 [] onePlanned).1 = pulls onePlanned)
  ∧ (UpdatePullWithResults movedPull42 [] onePlanned).2
    = inr (PullStatus.mk movedPull42 []).
Proof.
  destruct onePlanned_stored as [Hv Hdec].
  destruct (UpdatePullWithResults_no_results pull42 onePlanned pullKey42 pullKey42_ok)
    as [Hmerge _].
  destruct (UpdatePullWithResults_no_results movedPull42 onePlanned pullKey42)
    as [_ Hreplace]; [vm_compute; reflexivity|].
  split.
  - destruct (Hmerge (stored onePlanned pullKey42) (replaced pull42 [resP 1])
                (stored onePlanned pullKey42) Hv Hdec eq_refl) as [Hres Hpulls];
      [vm_compute; reflexivity|].
    split; [exact Hres|]. rewrite Hpulls. by apply insert_id.
  - apply (Hreplace (default "" (Marshal (PullStatus.mk movedPull42 [])))).
    + right. exists (stored onePlanned pullKey42), (replaced pull42 [resP 1]).
      split_and!; [done..|]. vm_compute. discriminate.
    + vm_compute; reflexivity.
Defined.

End ComposeExamples.

Section UnserialisableLock.
Import Sample.
#[local] Existing Instance Wire.JSON_ProjectLock_dated.

(** C1. On a free slot [TryLock] does not write a lock that [json.Marshal]
    refuses: for the lock taken after the year 9999 it returns true with the
    lock and no error, what it has put at the key is the empty value, and the
    slot is lost, since [GetLock], [Unlock] and a later [TryLock] on it all
    return an error. *)
Theorem TryLock_unserialisable_lock :
  Marshal lockFarFuture = None ∧
  runLocks empty !! "org/repo/infra/default" = None ∧
  (TryLock lockFarFuture empty).2 = inr (true, lockFarFuture) ∧
  runLocks (TryLock lockFarFuture empty).1 !! "org/repo/infra/default" = Some "" ∧
  (∃ e, (GetLock (Project.mk "org/repo" "infra") "default"
           (TryLock lockFarFuture empty).1).2 = inl e) ∧
  (∃ e, (Unlock (Project.mk "org/repo" "infra") "default"
           (TryLock lockFarFuture empty).1).2 = inl e) ∧
  (∃ e, (TryLock lockA (TryLock lockFarFuture empty).1).2 = inl e).
Proof.
  split_and!; try (vm_compute; reflexivity); eexists; vm_compute; reflexivity.
Qed.


End UnserialisableLock.
